(** * nfs-test: a diagnostic probe service (main.go)

    A shallow embedding of the HTTP handlers, the response envelope, the
    start-up parsing of the numeric identity, and the two SQLite probe loops
    of [main.go], with the properties the specification states about them.

    Go strings are byte sequences: they are modelled as [string] (a list
    of 8-bit [ascii]).  Go's [int] is the 64-bit machine word; machine
    integers are [Z] with the wrap-around written out. *)

From Stdlib Require Import ZArith String Ascii List Bool Lia Sorted.
From stdpp Require Import base option list gmap strings pretty.
Import ListNotations.

Local Open Scope string_scope.
Local Open Scope list_scope.
Local Open Scope Z_scope.

(** ** Results of fallible calls: Go's [(value, error)] pairs. *)

Inductive Result (A E : Type) : Type :=
| Ok (a : A)
| Err (e : E).
Arguments Ok {A E} a.
Arguments Err {A E} e.

Definition byte_val (c : ascii) : Z := Z.of_nat (nat_of_ascii c).

(** ** Machine integers *)

Module MachineInt.

(** [strconv.IntSize] on the 64-bit platforms the service is built for. *)
Definition intSize : Z := 64.

Definition minInt : Z := - 2 ^ (intSize - 1).
Definition maxInt : Z := 2 ^ (intSize - 1) - 1.

(** Two's complement wrap-around of [int] and [uint64] arithmetic. *)
Definition wrapInt (z : Z) : Z :=
  (z + 2 ^ (intSize - 1)) mod 2 ^ intSize - 2 ^ (intSize - 1).
Definition wrapUint64 (z : Z) : Z := z mod 2 ^ 64.

(** The conversion [uint32(x)] of an [int]: the low 32 bits. *)
Definition uint32 (x : Z) : Z := x mod 2 ^ 32.

Definition in_int (z : Z) : Prop := minInt <= z <= maxInt.

End MachineInt.

(** ** strconv.Atoi *)

Module Strconv.
Import MachineInt.

Inductive NumError := ErrSyntax | ErrRange.

(** The digit loop of the fast path: [ch -= '0'] is byte arithmetic,
    so a character below ['0'] wraps to a value above 9. *)
Fixpoint atoiLoop (s : string) (n : Z) : Result Z NumError :=
  match s with
  | EmptyString => Ok n
  | String ch s' =>
      let d := (byte_val ch - 48) mod 256 in
      if 9 <? d then Err ErrSyntax
      else atoiLoop s' (wrapInt (n * 10 + d))
  end.

(** The loop of [ParseUint(s, 10, 0)]: [n] is a [uint64]. *)
Fixpoint parseUintLoop (s : string) (n : Z) : Result Z NumError :=
  match s with
  | EmptyString => Ok n
  | String c s' =>
      if (48 <=? byte_val c) && (byte_val c <=? 57) then
        let d := byte_val c - 48 in
        let cutoff := (2 ^ 64 - 1) / 10 + 1 in
        let maxVal := 2 ^ intSize - 1 in
        if cutoff <=? n then Err ErrRange
        else
          let n := wrapUint64 (n * 10) in
          let n1 := wrapUint64 (n + d) in
          if (n1 <? n) || (maxVal <? n1) then Err ErrRange
          else parseUintLoop s' n1
      else
        (* letters denote digits of at least 10, refused in base 10;
           the underscore is accepted for base 0 only *)
        Err ErrSyntax
  end.

Definition ParseUint (s : string) : Result Z NumError :=
  match s with
  | EmptyString => Err ErrSyntax
  | _ => parseUintLoop s 0
  end.

(** [ParseInt(s, 10, 0)]. A range error of [ParseUint] leaves the
    saturated value [maxVal], on which both range tests fire. *)
Definition ParseInt (s : string) : Result Z NumError :=
  match s with
  | EmptyString => Err ErrSyntax
  | String c0 rest =>
      let neg := Ascii.eqb c0 "-" in
      let s1 := if Ascii.eqb c0 "+" || neg then rest else s in
      match ParseUint s1 with
      | Err ErrSyntax => Err ErrSyntax
      | r =>
          let un := match r with Ok un => un | Err _ => 2 ^ intSize - 1 end in
          let cutoff := 2 ^ (intSize - 1) in
          if negb neg && (cutoff <=? un) then Err ErrRange
          else if neg && (cutoff <? un) then Err ErrRange
          else
            match r with
            | Err e => Err e
            | Ok _ => Ok (if neg then wrapInt (- wrapInt un) else wrapInt un)
            end
      end
  end.

Definition Atoi (s : string) : Result Z NumError :=
  let sLen := Z.of_nat (String.length s) in
  if ((intSize =? 32) && ((0 <? sLen) && (sLen <? 10)))
     || ((intSize =? 64) && ((0 <? sLen) && (sLen <? 19)))
  then
    (* fast path for small integers that fit the int type *)
    match s with
    | EmptyString => Err ErrSyntax
    | String c0 rest =>
        let signed := Ascii.eqb c0 "-" || Ascii.eqb c0 "+" in
        let s1 := if signed then rest else s in
        if signed && (String.length s1 <? 1)%nat then Err ErrSyntax
        else
          match atoiLoop s1 0 with
          | Err e => Err e
          | Ok n => Ok (if Ascii.eqb c0 "-" then wrapInt (- n) else n)
          end
    end
  else
    (* slow path for invalid, big, or underscored integers *)
    match ParseInt s with
    | Err e => Err e
    | Ok i64 => Ok (wrapInt i64)
    end.

End Strconv.

(** ** Characters and small string helpers *)

Definition dquote : ascii := ascii_of_nat 34.
Definition backslash : ascii := ascii_of_nat 92.
Definition newline : ascii := ascii_of_nat 10.

Definition str1 (c : ascii) : string := String c EmptyString.

(** A string between double quotes, nothing escaped. *)
Definition quoted (s : string) : string := str1 dquote +:+ s +:+ str1 dquote.

Definition firstn_string (n : nat) (s : string) : string :=
  String.substring 0 n s.

(** ** unicode/utf8: decoding one rune *)

Module Utf8.

Definition RuneError : Z := 0xFFFD.

(** [utf8.DecodeRuneInString]: the rune at the head of [s] and its width
    in bytes; [(RuneError, 1)] for an invalid or truncated encoding. The
    table [first] and the accept ranges are written out as comparisons. *)
Definition DecodeRuneInString (s : string) : Z * nat :=
  match s with
  | EmptyString => (RuneError, 0%nat)
  | String c0 r0 =>
      let s0 := byte_val c0 in
      if s0 <? 0x80 then (s0, 1%nat)
      else if (s0 <? 0xC2) || (0xF4 <? s0) then (RuneError, 1%nat)
      else
        let sz := if s0 <? 0xE0 then 2%nat else if s0 <? 0xF0 then 3%nat else 4%nat in
        let lo := if s0 =? 0xE0 then 0xA0 else if s0 =? 0xF0 then 0x90 else 0x80 in
        let hi := if s0 =? 0xED then 0x9F else if s0 =? 0xF4 then 0x8F else 0xBF in
        if (String.length s <? sz)%nat then (RuneError, 1%nat)
        else
          match r0 with
          | EmptyString => (RuneError, 1%nat)
          | String c1 r1 =>
              let s1 := byte_val c1 in
              if (s1 <? lo) || (hi <? s1) then (RuneError, 1%nat)
              else if (sz <=? 2)%nat then
                (Z.lor (Z.shiftl (Z.land s0 0x1F) 6) (Z.land s1 0x3F), 2%nat)
              else
                match r1 with
                | EmptyString => (RuneError, 1%nat)
                | String c2 r2 =>
                    let s2 := byte_val c2 in
                    if (s2 <? 0x80) || (0xBF <? s2) then (RuneError, 1%nat)
                    else if (sz <=? 3)%nat then
                      (Z.lor (Z.lor (Z.shiftl (Z.land s0 0x0F) 12)
                                    (Z.shiftl (Z.land s1 0x3F) 6))
                             (Z.land s2 0x3F), 3%nat)
                    else
                      match r2 with
                      | EmptyString => (RuneError, 1%nat)
                      | String c3 _ =>
                          let s3 := byte_val c3 in
                          if (s3 <? 0x80) || (0xBF <? s3) then (RuneError, 1%nat)
                          else
                            (Z.lor (Z.lor (Z.lor (Z.shiftl (Z.land s0 0x07) 18)
                                                 (Z.shiftl (Z.land s1 0x3F) 12))
                                          (Z.shiftl (Z.land s2 0x3F) 6))
                                   (Z.land s3 0x3F), 4%nat)
                      end
                end
          end
  end.

End Utf8.

(** ** encoding/json: string literals *)

Module Json.

Definition hexDigit (d : Z) : ascii :=
  match String.get (Z.to_nat d) "0123456789abcdef" with
  | Some c => c
  | None => "0"%char
  end.

(** [htmlSafeSet]: the ASCII bytes copied as they are when HTML escaping
    is on, the default of [json.NewEncoder]. *)
Definition htmlSafe (b : Z) : bool :=
  (0x20 <=? b) && (b <? 0x80)
  && negb ((b =? 0x22) || (b =? 0x26) || (b =? 0x3C) || (b =? 0x3E) || (b =? 0x5C)).

Definition escapeByte (c : ascii) : string :=
  let b := byte_val c in
  if (b =? 0x5C) || (b =? 0x22) then String backslash (str1 c)
  else if b =? 0x08 then String backslash "b"
  else if b =? 0x0C then String backslash "f"
  else if b =? 0x0A then String backslash "n"
  else if b =? 0x0D then String backslash "r"
  else if b =? 0x09 then String backslash "t"
  else String backslash ("u00" +:+ String (hexDigit (Z.shiftr b 4))
                                     (str1 (hexDigit (Z.land b 0xF)))).

(** The loop of [appendString]. The index [i] of the source advances by
    the width of the rune decoded; here the bytes that follow the first
    byte of a multi-byte rune are consumed by [skip], copied ([emit]) or
    dropped (after the escape of U+2028 and U+2029). *)
Fixpoint appendStringLoop (skip : nat) (emit : bool) (src : string) : string :=
  match src with
  | EmptyString => EmptyString
  | String c rest =>
      match skip with
      | S k =>
          if emit then String c (appendStringLoop k emit rest)
          else appendStringLoop k emit rest
      | O =>
          let b := byte_val c in
          if b <? 0x80 then
            if htmlSafe b then String c (appendStringLoop 0 true rest)
            else escapeByte c +:+ appendStringLoop 0 true rest
          else
            let '(r, size) := Utf8.DecodeRuneInString (firstn_string 4 src) in
            if (r =? Utf8.RuneError) && (size =? 1)%nat then
              String backslash "ufffd" +:+ appendStringLoop 0 true rest
            else if (r =? 0x2028) || (r =? 0x2029) then
              String backslash ("u202" +:+ str1 (hexDigit (Z.land r 0xF)))
                +:+ appendStringLoop (size - 1) false rest
            else String c (appendStringLoop (size - 1) true rest)
      end
  end.

Definition appendString (src : string) : string :=
  str1 dquote +:+ appendStringLoop 0 true src +:+ str1 dquote.

End Json.

(** ** time: broken-down instants and the RFC 3339 layout *)

Module Time.

(** What [time.Now()] yields, already broken down in its location:
    the calendar date, the clock, and the zone offset in seconds east
    of UTC.  (The conversion of an instant to these fields is the
    library's.) *)
Record Time := mkTime {
  year : Z; month : Z; day : Z;
  hour : Z; minute : Z; second : Z;
  offset : Z
}.

Definition digit (d : Z) : ascii := ascii_of_nat (48 + Z.to_nat d).

Fixpoint zeros (n : nat) : string :=
  match n with O => "" | S k => String "0" (zeros k) end.

(** [appendInt]: the decimal form of [x], zero-padded to [width]. *)
Definition appendInt (x : Z) (width : Z) : string :=
  let sign := if x <? 0 then "-" else "" in
  let u := Z.abs x in
  if (width =? 2) && (u <? 100) then
    sign +:+ String (digit (u / 10)) (str1 (digit (u mod 10)))
  else if (width =? 4) && (u <? 10000) then
    sign +:+ String (digit (u / 1000))
               (String (digit (u / 100 mod 10))
                  (String (digit (u / 10 mod 10)) (str1 (digit (u mod 10)))))
  else
    let ds := pretty (Z.to_N u) in
    sign +:+ zeros (Z.to_nat width - String.length ds) +:+ ds.

(** [t.Format(time.RFC3339)], layout ["2006-01-02T15:04:05Z07:00"]. *)
Definition formatRFC3339 (t : Time) : string :=
  appendInt (year t) 4 +:+ "-" +:+ appendInt (month t) 2 +:+ "-"
  +:+ appendInt (day t) 2 +:+ "T"
  +:+ appendInt (hour t) 2 +:+ ":" +:+ appendInt (minute t) 2 +:+ ":"
  +:+ appendInt (second t) 2
  +:+ (if offset t =? 0 then "Z"
       else
         let zone := Z.quot (offset t) 60 in
         (if zone <? 0 then "-" else "+")
         +:+ appendInt (Z.quot (Z.abs zone) 60) 2 +:+ ":"
         +:+ appendInt (Z.rem (Z.abs zone) 60) 2).

(** The instants the wall clock delivers: a four-digit year, a calendar
    month and day, a clock time, and a zone within a day of UTC. *)
Definition valid (t : Time) : Prop :=
  0 <= year t <= 9999 /\ 1 <= month t <= 12 /\ 1 <= day t <= 31 /\
  0 <= hour t <= 23 /\ 0 <= minute t <= 59 /\ 0 <= second t <= 59 /\
  -86400 < offset t < 86400.

(** The same instant with the zone offset cut to whole minutes, which
    is all the layout prints of it. *)
Definition truncZone (t : Time) : Time :=
  mkTime (year t) (month t) (day t) (hour t) (minute t) (second t)
    (60 * Z.quot (offset t) 60).

(** A reader of the layout, to state that what is written can be parsed
    back: [YYYY-MM-DDTHH:MM:SS] followed by [Z] or by a signed [HH:MM],
    nothing else, with every field in its range. *)
Definition digitVal (c : ascii) : option Z :=
  let b := byte_val c in
  if (48 <=? b) && (b <=? 57) then Some (b - 48) else None.

Definition take2 (s : string) : option (Z * string) :=
  match s with
  | String a (String b rest) =>
      x ← digitVal a; y ← digitVal b; Some (10 * x + y, rest)
  | _ => None
  end.

Definition take4 (s : string) : option (Z * string) :=
  '(hi, s) ← take2 s; '(lo, s) ← take2 s; Some (100 * hi + lo, s).

Definition expect (c : ascii) (s : string) : option string :=
  match s with
  | String a rest => if Ascii.eqb a c then Some rest else None
  | EmptyString => None
  end.

Definition parseZone (s : string) : option Z :=
  match s with
  | String c rest =>
      if Ascii.eqb c "Z" then
        (if String.eqb rest "" then Some 0 else None)
      else if Ascii.eqb c "+" || Ascii.eqb c "-" then
        '(zh, s) ← take2 rest;
        s ← expect ":" s;
        '(zm, s) ← take2 s;
        if String.eqb s "" && (zh <=? 23) && (zm <=? 59) then
          Some ((if Ascii.eqb c "-" then -1 else 1) * (zh * 3600 + zm * 60))
        else None
      else None
  | EmptyString => None
  end.

Definition parseRFC3339 (s : string) : option Time :=
  '(y, s) ← take4 s;
  s ← expect "-" s;
  '(mo, s) ← take2 s;
  s ← expect "-" s;
  '(d, s) ← take2 s;
  s ← expect "T" s;
  '(h, s) ← take2 s;
  s ← expect ":" s;
  '(mi, s) ← take2 s;
  s ← expect ":" s;
  '(sec, s) ← take2 s;
  off ← parseZone s;
  if (1 <=? mo) && (mo <=? 12) && (1 <=? d) && (d <=? 31)
     && (h <=? 23) && (mi <=? 59) && (sec <=? 59)
  then Some (mkTime y mo d h mi sec off)
  else None.

End Time.

(** ** The service: configuration, envelope and handlers *)

(** Go's [error] values are used for their text only. *)
Definition error := string.

Record FileInfo := mkFileInfo {
  Name : string;
  IsDir : bool;
  Size : Z;
  Mtime : Time.Time
}.

(** [nfs4.AuthParams] *)
Record AuthParams := mkAuth {
  Uid : Z;
  Gid : Z;
  MachineName : string
}.

(** Library functions whose results the claims do not depend on are
    taken as given. *)
Class GoLib := {
  (** [time.ParseDuration], in nanoseconds *)
  ParseDuration : string -> Result Z error;
  (** [strconv.Quote], the verb [%q] *)
  Quote : string -> string;
  (** the JSON form of one [nfs4.FileInfo] *)
  marshalFileInfo : FileInfo -> Result string error
}.

(** *** Logging ([log/slog]) *)

Inductive Level := LevelInfo | LevelError.

Inductive Attr :=
| AStr (s : string)
| AInt (z : Z).

Record LogRecord := mkLog {
  level : Level;
  msg : string;
  attrs : list (string * Attr)
}.

(** A logger is the list of attributes fixed by [With]; the sink is the
    list of records emitted so far. *)
Definition Logger := list (string * Attr).

Definition logAt (lv : Level) (lg : Logger) (m : string)
  (args : list (string * Attr)) (sink : list LogRecord) : list LogRecord :=
  sink ++ [mkLog lv m (lg ++ args)].

(** *** The environment and [main]'s start-up *)

(** The variables read by [os.Getenv]; an unset variable reads [""]. *)
Record Env := mkEnv {
  NFS_SERVER : string; NFS_SHARE : string; PORT : string;
  TIMEOUT : string; MACHINE_NAME : string; UID : string; GID : string;
  STORAGE_PATH : string; SQLITE_STORAGE_PATH : string; POD_NAME : string;
  WRITE_INTERVAL : string; READ_INTERVAL : string
}.

(** The package-level variables after the defaults, with the parsed
    [timeout], [uid] and [gid] of [main]. *)
Record Config := mkConfig {
  server : string; share : string; listenPort : string;
  timeout : Z; machineName : string; uid : Z; gid : Z;
  storagePathEnv : string; sqliteStoragePathEnv : string;
  podNameEnv : string;
  sqliteWriteIntervalEnv : string; sqliteReadIntervalEnv : string
}.

Definition orDefault (v d : string) : string :=
  if String.eqb v "" then d else v.

(** The text of the [strconv.NumError] of a failed [Atoi]. *)
Definition numErrorText `{GoLib} (num : string) (ne : Strconv.NumError) : string :=
  "strconv.Atoi: parsing " +:+ Quote num +:+ ": "
  +:+ match ne with
      | Strconv.ErrSyntax => "invalid syntax"
      | Strconv.ErrRange => "value out of range"
      end.

(** [main] up to the point where the handlers are registered: [Err] is
    the message of [log.Fatal]. *)
Definition main_init `{GoLib} (e : Env) : Result Config string :=
  if String.eqb (NFS_SERVER e) "" || String.eqb (NFS_SHARE e) "" then
    Err "Must set NFS_SERVER and NFS_SHARE environment variables"
  else
    let listenPort := orDefault (PORT e) ":8080" in
    let timeoutEnv := orDefault (TIMEOUT e) "20s" in
    let machineName := orDefault (MACHINE_NAME e) "its-me" in
    let sqliteWriteIntervalEnv := orDefault (WRITE_INTERVAL e) "1s" in
    let sqliteReadIntervalEnv := orDefault (READ_INTERVAL e) "10s" in
    match ParseDuration timeoutEnv with
    | Err err => Err ("timeout can not be parsed: " +:+ err)
    | Ok timeout =>
        match Strconv.Atoi (UID e) with
        | Err ne =>
            Err ("can not parse UID env variable: " +:+ numErrorText (UID e) ne)
        | Ok uid =>
            match Strconv.Atoi (GID e) with
            | Err ne =>
                Err ("can not parse GID env variable: " +:+ numErrorText (GID e) ne)
            | Ok gid =>
                Ok (mkConfig (NFS_SERVER e) (NFS_SHARE e) listenPort
                      timeout machineName uid gid
                      (STORAGE_PATH e) (SQLITE_STORAGE_PATH e) (POD_NAME e)
                      sqliteWriteIntervalEnv sqliteReadIntervalEnv)
            end
        end
    end.

Definition prefixPort (port : string) : string :=
  if String.prefix ":" port then port else ":" +:+ port.

(** *** The world outside the process *)

Inductive FileOp := OpRead | OpWrite.

(** The local file system: the content of each regular file, and the
    operations the operating system refuses on a path (missing
    directory, permissions, I/O error) with the error it reports. *)
Record FileSystem := mkFS {
  fs_files : gmap string string;
  fs_fault : FileOp -> string -> option error
}.

(** The remote file server as [nfs4] sees it. *)
Record NfsServer := mkNfs {
  nfs_connect : string -> AuthParams -> option error;
  nfs_list : string -> Result (list FileInfo) error
}.

(** The calls that leave the process, in program order. *)
Inductive Call :=
| CallWriteFile (name data : string) (perm : Z)
| CallReadFile (name : string)
| CallNewNfsClient (timeout : Z) (server : string) (auth : AuthParams)
| CallGetFileList (path : string).

Record World := mkWorld {
  fs : FileSystem;
  nfs : NfsServer;
  now : Time.Time;
  calls : list Call;
  logs : list LogRecord
}.

Definition did (c : Call) (W : World) : World :=
  mkWorld (fs W) (nfs W) (now W) (calls W ++ [c]) (logs W).

Definition set_fs (f : FileSystem) (W : World) : World :=
  mkWorld f (nfs W) (now W) (calls W) (logs W).

Definition set_logs (l : list LogRecord) (W : World) : World :=
  mkWorld (fs W) (nfs W) (now W) (calls W) l.

(** [os.WriteFile(name, data, perm)]: the whole content is replaced; a
    write that the system refuses is taken to leave the file as it was. *)
Definition WriteFile (name data : string) (perm : Z) (W : World)
  : option error * World :=
  let W := did (CallWriteFile name data perm) W in
  match fs_fault (fs W) OpWrite name with
  | Some e => (Some e, W)
  | None =>
      (None, set_fs (mkFS (<[name := data]> (fs_files (fs W))) (fs_fault (fs W))) W)
  end.

(** [os.ReadFile(name)] *)
Definition ReadFile (name : string) (W : World) : Result string error * World :=
  let W := did (CallReadFile name) W in
  match fs_fault (fs W) OpRead name with
  | Some e => (Err e, W)
  | None =>
      match fs_files (fs W) !! name with
      | Some content => (Ok content, W)
      | None => (Err ("open " +:+ name +:+ ": no such file or directory"), W)
      end
  end.

(** *** [http.ResponseWriter] *)

(** [sent] is the status line with the headers as they were when
    [WriteHeader] was called; later changes of [header] are not sent. *)
Record ResponseWriter := mkWriter {
  header : gmap string string;
  sent : option (Z * gmap string string);
  body : string
}.

Definition newWriter : ResponseWriter := mkWriter ∅ None "".

Definition Header_Set (k v : string) (w : ResponseWriter) : ResponseWriter :=
  mkWriter (<[k := v]> (header w)) (sent w) (body w).

Definition WriteHeader (code : Z) (w : ResponseWriter) : ResponseWriter :=
  match sent w with
  | Some _ => w
  | None => mkWriter (header w) (Some (code, header w)) (body w)
  end.

Definition Write (data : string) (w : ResponseWriter) : ResponseWriter :=
  let w := WriteHeader 200 w in
  mkWriter (header w) (sent w) (body w +:+ data).

Definition status (w : ResponseWriter) : option Z := fst <$> sent w.

Definition sentHeader (k : string) (w : ResponseWriter) : option string :=
  match sent w with
  | Some (_, h) => h !! k
  | None => None
  end.

Definition StatusOK : Z := 200.
Definition StatusInternalServerError : Z := 500.

(** *** The response envelope *)

Record response := mkResponse {
  Pod : string;
  Error : string;
  Message : string;
  Files : list FileInfo;
  err : option error
}.

(** [&response{writer: w, logger: logger}] *)
Definition emptyResponse : response := mkResponse "" "" "" [] None.

Definition set_err (e : error) (r : response) : response :=
  mkResponse (Pod r) (Error r) (Message r) (Files r) (Some e).

Definition set_Message (m : string) (r : response) : response :=
  mkResponse (Pod r) (Error r) m (Files r) (err r).

Definition set_Files (fl : list FileInfo) (r : response) : response :=
  mkResponse (Pod r) (Error r) (Message r) fl (err r).

Definition set_Pod (p : string) (r : response) : response :=
  mkResponse p (Error r) (Message r) (Files r) (err r).

Definition set_Error (e : string) (r : response) : response :=
  mkResponse (Pod r) e (Message r) (Files r) (err r).

(** The elements of the [files] array, or the first error. *)
Fixpoint marshalFiles `{GoLib} (fl : list FileInfo) : Result (list string) error :=
  match fl with
  | [] => Ok []
  | f :: fl' =>
      match marshalFileInfo f with
      | Err e => Err e
      | Ok js =>
          match marshalFiles fl' with
          | Err e => Err e
          | Ok l => Ok (js :: l)
          end
      end
  end.

Definition stringField (key value : string) : list string :=
  if String.eqb value "" then []
  else [quoted key +:+ ":" +:+ Json.appendString value].

(** [json.Marshal] of a [response]: the exported fields in the order of
    declaration, each left out when empty ([omitempty]). *)
Definition Marshal `{GoLib} (r : response) : Result string error :=
  match marshalFiles (Files r) with
  | Err e => Err e
  | Ok fl =>
      let files :=
        match fl with
        | [] => []
        | _ => [quoted "files" +:+ ":[" +:+ String.concat "," fl +:+ "]"]
        end in
      Ok ("{" +:+ String.concat "," (stringField "pod" (Pod r) ++ stringField "error" (Error r)
                            ++ stringField "message" (Message r) ++ files)
              +:+ "}")
  end.

(** [json.NewEncoder(w).Encode(r)]: the value followed by a newline,
    written at once; nothing is written when marshalling fails. *)
Definition Encode `{GoLib} (r : response) (w : ResponseWriter)
  : option error * ResponseWriter :=
  match Marshal r with
  | Err e => (Some e, w)
  | Ok js => (None, Write (js +:+ str1 newline) w)
  end.

(** [func (r *response) handle()] *)
Definition handle `{GoLib} (cfg : Config) (logger : Logger)
  (r : response) (w : ResponseWriter) (W : World)
  : response * ResponseWriter * World :=
  let w := Header_Set "Content-Type" "application/json" w in
  let r := set_Pod (podNameEnv cfg) r in
  let '(r, w, W) :=
    match err r with
    | Some e =>
        let r := set_Error "something went wrong" r in
        let W := set_logs (logAt LevelError logger e [] (logs W)) W in
        (r, WriteHeader StatusInternalServerError w, W)
    | None => (r, WriteHeader StatusOK w, W)
    end in
  match Encode r w with
  | (Some e, w) =>
      (r, w, set_logs (logAt LevelError logger "can not JSON encode output"
                         [("error", AStr e)] (logs W)) W)
  | (None, w) => (r, w, W)
  end.

(** *** The handlers registered by [main] *)

(** A request, as far as the handlers look at it: the decoded query
    parameters of its URL. *)
Record Request := mkRequest {
  query : list (string * string)
}.

(** [r.URL.Query().Get(key)]: the first value of [key], or [""]. *)
Fixpoint Query_Get (key : string) (q : list (string * string)) : string :=
  match q with
  | [] => ""
  | (k, v) :: q' => if String.eqb k key then v else Query_Get key q'
  end.

(** [slog.Default().With("pod_name", podNameEnv)] *)
Definition mainLogger (cfg : Config) : Logger :=
  [("pod_name", AStr (podNameEnv cfg))].

Inductive Endpoint := WriteStorage | ReadStorage | List.

(** The file mode [0644], octal. *)
Definition perm0644 : Z := 6 * 64 + 4 * 8 + 4.

(** The body of the [/write-storage] handler, up to its [return]. *)
Definition writeStorageBody (cfg : Config) (W : World) : response * World :=
  let response := emptyResponse in
  if String.eqb (storagePathEnv cfg) "" then
    (set_err "no storage path set via STORAGE_PATH env variable" response, W)
  else
    let currentTime := Time.formatRFC3339 (now W) in
    match WriteFile (storagePathEnv cfg) currentTime perm0644 W with
    | (Some e, W) => (set_err ("error writing to file: " +:+ e) response, W)
    | (None, W) =>
        (set_Message ("current time written to store: " +:+ currentTime) response, W)
    end.

(** The body of the [/read-storage] handler. *)
Definition readStorageBody (cfg : Config) (W : World) : response * World :=
  let response := emptyResponse in
  if String.eqb (storagePathEnv cfg) "" then
    (set_err "no storage path set via STORAGE_PATH env variable" response, W)
  else
    match ReadFile (storagePathEnv cfg) W with
    | (Err e, W) => (set_err ("error reading from file: " +:+ e) response, W)
    | (Ok content, W) =>
        (set_Message ("last time written to store: " +:+ content) response, W)
    end.

(** The body of the [/list] handler. *)
Definition listBody `{GoLib} (cfg : Config) (req : Request) (W : World)
  : response * World :=
  let response := emptyResponse in
  let auth := mkAuth (MachineInt.uint32 (uid cfg)) (MachineInt.uint32 (gid cfg))
                (machineName cfg) in
  let W := did (CallNewNfsClient (timeout cfg) (server cfg) auth) W in
  match nfs_connect (nfs W) (server cfg) auth with
  | Some e => (set_err ("error creating NFS client: " +:+ e) response, W)
  | None =>
      let path := Query_Get "path" (query req) in
      let path := if String.eqb path "" then "/" else path in
      let W := did (CallGetFileList path) W in
      match nfs_list (nfs W) path with
      | Err e =>
          (set_err ("Error reading dir " +:+ Quote path +:+ ": " +:+ e) response, W)
      | Ok entries => (set_Files entries response, W)
      end
  end.

Definition handlerBody `{GoLib} (ep : Endpoint) (cfg : Config) (req : Request)
  (W : World) : response * World :=
  match ep with
  | WriteStorage => writeStorageBody cfg W
  | ReadStorage => readStorageBody cfg W
  | List => listBody cfg req W
  end.

(** One request served by an envelope-using endpoint: the handler body,
    then the deferred [response.handle()]. The result is the envelope as
    finalized, what the client receives, and the world afterwards. *)
Definition serve `{GoLib} (ep : Endpoint) (cfg : Config) (req : Request)
  (W : World) : response * ResponseWriter * World :=
  let '(r, W) := handlerBody ep cfg req W in
  handle cfg (mainLogger cfg) r newWriter W.

(** The body of a response that carries nothing but the pod label (when
    it is not empty) and the fixed error string. *)
Definition errorBody (podName : string) : string :=
  ("{" +:+ String.concat ","
             (stringField "pod" podName
              ++ [quoted "error" +:+ ":" +:+ quoted "something went wrong"])
   +:+ "}") +:+ str1 newline.

(** The handler of ["/"]. *)
Definition serveRoot (w : ResponseWriter) : ResponseWriter :=
  WriteHeader StatusOK w.

(** ** The SQLite store: table [entries] *)

Module Store.

(** One row of
    [entries (id INTEGER PRIMARY KEY AUTOINCREMENT, pod TEXT NOT NULL,
              ts DATETIME NOT NULL, payload TEXT)];
    [payload] is the only nullable column. *)
Record Entry := mkEntry {
  id : Z;
  pod : string;
  ts : string;
  payload : option string
}.

(** The rows in the order of their insertion, and the largest row id
    ever handed out, which AUTOINCREMENT keeps in [sqlite_sequence]. *)
Record Table := mkTable {
  entries : list Entry;
  sqlite_sequence : Z
}.

Definition emptyTable : Table := mkTable [] 0.

(** [CREATE TABLE IF NOT EXISTS entries (...)] on a database file that
    holds the table already ([Some]) or not ([None]). *)
Definition createSchema (file : option Table) : Table :=
  match file with
  | Some t => t
  | None => emptyTable
  end.

Definition maxRowid : Z := 9223372036854775807.

Fixpoint maxId (l : list Entry) : Z :=
  match l with
  | [] => 0
  | e :: l' => Z.max (id e) (maxId l')
  end.

(** The row id AUTOINCREMENT assigns next: one more than the largest
    row id the table has ever held. *)
Definition nextId (t : Table) : Z :=
  Z.max (sqlite_sequence t) (maxId (entries t)) + 1.

(** [INSERT INTO entries (pod, ts, payload) VALUES (?, datetime('now'), ?)]:
    [stamp] is what [datetime('now')] evaluates to, [fault] an error of
    the store itself (I/O, locking). The result is the new table with
    the row inserted. *)
Definition insert (podName stamp payload : string) (fault : option error)
  (t : Table) : Result (Table * Entry) error :=
  match fault with
  | Some e => Err e
  | None =>
      let i := nextId t in
      if maxRowid <? i then Err "database or disk is full"
      else
        let e := mkEntry i podName stamp (Some payload) in
        Ok (mkTable (entries t ++ [e]) i, e)
  end.

(** [SELECT ... FROM entries ORDER BY id DESC LIMIT 1]: the row of the
    largest id, if there is any row. *)
Fixpoint lastById (l : list Entry) : option Entry :=
  match l with
  | [] => None
  | e :: l' =>
      match lastById l' with
      | None => Some e
      | Some m => if id m <? id e then Some e else Some m
      end
  end.

(** The single row of
    [SELECT COUNT( * ), (SELECT pod ...), (SELECT ts ...), (SELECT payload ...)]:
    a scalar subquery without a row is NULL ([None]). *)
Definition aggregate (t : Table)
  : Z * option string * option string * option string :=
  let last := lastById (entries t) in
  (Z.of_nat (length (entries t)),
   pod <$> last, ts <$> last, last ≫= payload).

End Store.

(** ** The probe loops started by [setupSqlite] *)

Module Probe.

(** Where the write goroutine stands: at its [select], inside
    [db.Exec] with the payload it made, in [time.Sleep], or returned. *)
Inductive WriterPC :=
| WSelect
| WExec (payload : string)
| WSleep
| WReturned.

(** Where the read goroutine stands: at its [select], inside
    [db.QueryRow(...).Scan], or returned. *)
Inductive ReaderPC :=
| RSelect
| RQuery
| RReturned.

(** The state shared by the two goroutines and the signal handler.
    [cancelled] says that [ctx.Done()] is closed; [tick] that a value
    waits in [ticker.C], a channel of capacity one. [written] keeps, for
    the statements below, the rows the write loop has inserted so far. *)
Record State := mkState {
  db : Store.Table;
  sink : list LogRecord;
  cancelled : bool;
  tick : bool;
  writer : WriterPC;
  reader : ReaderPC;
  written : list Store.Entry
}.

(** The case a [select] of the read loop takes. *)
Inductive Choice := ChooseDone | ChooseTick.

(** What can happen next: the order of these events is the schedule,
    and they carry what the outside decides (the random number, the
    store's clock and faults). *)
Inductive Event :=
| EvCancel
| EvTick
| EvWriterSelect (rnd : Z)
| EvWriterExec (stamp : string) (fault : option error)
| EvWriterWake
| EvReaderSelect (c : Choice)
| EvReaderQuery (fault : option error).

Definition selectQuery : string :=
  "SELECT COUNT(" +:+ "*), (SELECT pod FROM entries ORDER BY id DESC LIMIT 1), (SELECT ts FROM entries ORDER BY id DESC LIMIT 1), (SELECT payload FROM entries ORDER BY id DESC LIMIT 1)".

Definition scanNull `{GoLib} (index : Z) (column : string) : error :=
  "sql: Scan error on column index " +:+ pretty index +:+ ", name "
  +:+ Quote column +:+ ": converting NULL to string is unsupported".

(** [Scan(&count, &lastPod, &lastTS, &lastPayload)] on the row of the
    aggregate query: the targets are an [int] and three [string]s, and a
    NULL cannot be stored in a [string]. *)
Definition Scan `{GoLib} (row : Z * option string * option string * option string)
  : Result (Z * string * string * string) error :=
  let '(count, p, t, pl) := row in
  match p with
  | None => Err (scanNull 1 "(SELECT pod FROM entries ORDER BY id DESC LIMIT 1)")
  | Some lastPod =>
      match t with
      | None => Err (scanNull 2 "(SELECT ts FROM entries ORDER BY id DESC LIMIT 1)")
      | Some lastTS =>
          match pl with
          | None =>
              Err (scanNull 3 "(SELECT payload FROM entries ORDER BY id DESC LIMIT 1)")
          | Some lastPayload => Ok (count, lastPod, lastTS, lastPayload)
          end
      end
  end.

(** [db.QueryRow(selectQuery).Scan(...)]: [fault] is an error of the
    store itself. *)
Definition queryRow `{GoLib} (fault : option error) (t : Store.Table)
  : Result (Z * string * string * string) error :=
  match fault with
  | Some e => Err e
  | None => Scan (Store.aggregate t)
  end.

Definition set_db (t : Store.Table) (s : State) : State :=
  mkState t (sink s) (cancelled s) (tick s) (writer s) (reader s) (written s).
Definition set_sink (l : list LogRecord) (s : State) : State :=
  mkState (db s) l (cancelled s) (tick s) (writer s) (reader s) (written s).
Definition set_cancelled (b : bool) (s : State) : State :=
  mkState (db s) (sink s) b (tick s) (writer s) (reader s) (written s).
Definition set_tick (b : bool) (s : State) : State :=
  mkState (db s) (sink s) (cancelled s) b (writer s) (reader s) (written s).
Definition set_writer (w : WriterPC) (s : State) : State :=
  mkState (db s) (sink s) (cancelled s) (tick s) w (reader s) (written s).
Definition set_reader (r : ReaderPC) (s : State) : State :=
  mkState (db s) (sink s) (cancelled s) (tick s) (writer s) r (written s).
Definition add_written (e : Store.Entry) (s : State) : State :=
  mkState (db s) (sink s) (cancelled s) (tick s) (writer s) (reader s)
    (written s ++ [e]).

(** The record logged for an aggregate snapshot. *)
Definition successfulRead (logger : Logger) (count : Z)
  (lastPod lastTS lastPayload : string) : LogRecord :=
  mkLog LevelInfo "successful read"
    (logger ++ [("count", AInt count); ("lastPod", AStr lastPod);
                ("lastTimestamp", AStr lastTS); ("lastPayload", AStr lastPayload)]).

(** One step of the system; [None] when the event cannot happen in the
    state (the goroutine is elsewhere, or the chosen case of a [select]
    is not ready).

    Write loop: [select] takes [<-ctx.Done()] whenever it is ready and
    the [default] case otherwise; the default case makes the payload,
    runs the INSERT, logs an error of it, and sleeps.

    Read loop: [select] waits for [ctx.Done()] or [ticker.C] and takes a
    case that is ready; with both ready the runtime picks either. *)
Definition step `{GoLib} (podName : string) (logger : Logger)
  (s : State) (ev : Event) : option State :=
  match ev with
  | EvCancel => Some (set_cancelled true s)
  | EvTick => Some (set_tick true s)
  | EvWriterSelect rnd =>
      match writer s with
      | WSelect =>
          if cancelled s then Some (set_writer WReturned s)
          else Some (set_writer (WExec ("rand=" +:+ pretty rnd)) s)
      | _ => None
      end
  | EvWriterExec stamp fault =>
      match writer s with
      | WExec payload =>
          match Store.insert podName stamp payload fault (db s) with
          | Ok (t, e) => Some (set_writer WSleep (add_written e (set_db t s)))
          | Err e =>
              Some (set_writer WSleep
                      (set_sink (logAt LevelError logger "WRITE error"
                                   [("error", AStr e)] (sink s)) s))
          end
      | _ => None
      end
  | EvWriterWake =>
      match writer s with
      | WSleep => Some (set_writer WSelect s)
      | _ => None
      end
  | EvReaderSelect c =>
      match reader s, c with
      | RSelect, ChooseDone =>
          if cancelled s then Some (set_reader RReturned s) else None
      | RSelect, ChooseTick =>
          if tick s then Some (set_reader RQuery (set_tick false s)) else None
      | _, _ => None
      end
  | EvReaderQuery fault =>
      match reader s with
      | RQuery =>
          match queryRow fault (db s) with
          | Err e =>
              Some (set_reader RSelect
                      (set_sink (logAt LevelError logger "read error"
                                   [("error", AStr e)] (sink s)) s))
          | Ok (count, lastPod, lastTS, lastPayload) =>
              Some (set_reader RSelect
                      (set_sink (sink s ++ [successfulRead logger count
                                              lastPod lastTS lastPayload]) s))
          end
      | _ => None
      end
  end.

Fixpoint run `{GoLib} (podName : string) (logger : Logger)
  (s : State) (evs : list Event) : option State :=
  match evs with
  | [] => Some s
  | ev :: evs' =>
      match step podName logger s ev with
      | None => None
      | Some s' => run podName logger s' evs'
      end
  end.

(** The events that are steps of the write goroutine, and of the read
    goroutine. *)
Definition isWriterEvent (ev : Event) : bool :=
  match ev with
  | EvWriterSelect _ | EvWriterExec _ _ | EvWriterWake => true
  | _ => false
  end.

Definition isReaderEvent (ev : Event) : bool :=
  match ev with
  | EvReaderSelect _ | EvReaderQuery _ => true
  | _ => false
  end.

(** [setupSqlite], which [main] calls when SQLITE_STORAGE_PATH is not
    blank: the intervals are parsed, the database opened and the schema
    created; then both loops are started. [file] is the
    table found in the database file, if any; [openFault] and
    [schemaFault] are errors of [sql.Open] and of the CREATE TABLE. *)
Definition setupSqlite `{GoLib} (file : option Store.Table)
  (openFault schemaFault : option error)
  (sqliteReadIntervalEnv sqliteWriteIntervalEnv : string)
  : Result State error :=
  match ParseDuration sqliteReadIntervalEnv with
  | Err e => Err ("can not parse sqlite read interval env variable: " +:+ e)
  | Ok _ =>
      match ParseDuration sqliteWriteIntervalEnv with
      | Err e => Err ("can not parse sqlite write interval env variable: " +:+ e)
      | Ok _ =>
          match openFault with
          | Some e => Err ("can not open sqlite db: " +:+ e)
          | None =>
              match schemaFault with
              | Some e => Err ("can not create schema: " +:+ e)
              | None =>
                  Ok (mkState (Store.createSchema file) [] false false
                        WSelect RSelect [])
              end
          end
      end
  end.

(** The state in which [setupSqlite] leaves a store holding table [t]. *)
Definition started (t : Store.Table) : State :=
  mkState t [] false false WSelect RSelect [].

End Probe.

(** ** The life of the process: [main] after start-up *)

Module Lifecycle.

(** The goroutine that waits on [sigCh]: waiting, past its log call
    and about to call [cancel], or returned. *)
Inductive SigPC := SigWait | SigLogged | SigDone.

(** The goroutine that runs the HTTP server: not yet started, inside
    [srv.ListenAndServe], past the log of a failure and about to call
    [cancel], or returned. *)
Inductive SrvPC := SrvNew | SrvListening | SrvFailed | SrvDone.

(** [main]: blocked on [<-ctx.Done()], past "shutting down HTTP
    server", inside [srv.Shutdown], past it, past "exited cleanly", or
    returned. *)
Inductive MainPC :=
| MWait | MLogged | MInShutdown | MShutdownDone | MExitLogged | MReturned.

Record State := mkState {
  cancelled : bool;
  sigPC : SigPC;
  srvPC : SrvPC;
  mainPC : MainPC;
  sink : list LogRecord;
  exit : option Z
}.

(** What can happen: a termination signal is delivered; the signal
    goroutine cancels; the server goroutine logs "serving" and calls
    [ListenAndServe], which returns [http.ErrServerClosed] ([None]) or
    another error; the server goroutine cancels; and the steps of
    [main]. [EvShutdownEnd] and [EvReturn] carry the errors of
    [srv.Shutdown] and of the deferred [closeDB]. *)
Inductive Event :=
| EvSignal
| EvSigCancel
| EvServe
| EvServeReturn (e : option error)
| EvSrvCancel
| EvMainWake
| EvShutdownBegin
| EvShutdownEnd (e : option error)
| EvMainExitLog
| EvReturn (closeErr : option error).

Definition set_cancelled (s : State) : State :=
  mkState true (sigPC s) (srvPC s) (mainPC s) (sink s) (exit s).
Definition set_sig (p : SigPC) (s : State) : State :=
  mkState (cancelled s) p (srvPC s) (mainPC s) (sink s) (exit s).
Definition set_srv (p : SrvPC) (s : State) : State :=
  mkState (cancelled s) (sigPC s) p (mainPC s) (sink s) (exit s).
Definition set_main (p : MainPC) (s : State) : State :=
  mkState (cancelled s) (sigPC s) (srvPC s) p (sink s) (exit s).
Definition say (r : LogRecord) (s : State) : State :=
  mkState (cancelled s) (sigPC s) (srvPC s) (mainPC s) (sink s ++ [r]) (exit s).
Definition set_exit (code : Z) (s : State) : State :=
  mkState (cancelled s) (sigPC s) (srvPC s) (mainPC s) (sink s) (Some code).

(** Whether [srv.Shutdown] has been called. *)
Definition shutdownCalled (s : State) : bool :=
  match mainPC s with
  | MInShutdown | MShutdownDone | MExitLogged | MReturned => true
  | _ => false
  end.

(** One step. [sqlite] says whether [setupSqlite] ran, so that
    [closeDB] is deferred. Once [main] has returned the process is
    gone and nothing happens any more. A signal that arrives when the
    signal goroutine no longer waits stays in the channel, or is
    dropped, and changes nothing. *)
Definition step (cfg : Config) (sqlite : bool) (s : State) (ev : Event)
  : option State :=
  let logger := mainLogger cfg in
  match exit s with
  | Some _ => None
  | None =>
      match ev with
      | EvSignal =>
          match sigPC s with
          | SigWait =>
              Some (set_sig SigLogged
                      (say (mkLog LevelInfo "received shutdown signal"
                              (logger ++ [("podName", AStr (podNameEnv cfg))])) s))
          | _ => Some s
          end
      | EvSigCancel =>
          match sigPC s with
          | SigLogged => Some (set_sig SigDone (set_cancelled s))
          | _ => None
          end
      | EvServe =>
          match srvPC s with
          | SrvNew =>
              Some (set_srv SrvListening
                      (say (mkLog LevelInfo "serving"
                              (logger ++ [("nfs-server", AStr (server cfg));
                                          ("nfs-share", AStr (share cfg));
                                          ("listen-address", AStr (listenPort cfg))]))
                         s))
          | _ => None
          end
      | EvServeReturn None =>
          match srvPC s with
          | SrvListening =>
              if shutdownCalled s then Some (set_srv SrvDone s) else None
          | _ => None
          end
      | EvServeReturn (Some e) =>
          match srvPC s with
          | SrvListening =>
              Some (set_srv SrvFailed
                      (say (mkLog LevelError "HTTP server error"
                              (logger ++ [("error", AStr e)])) s))
          | _ => None
          end
      | EvSrvCancel =>
          match srvPC s with
          | SrvFailed => Some (set_srv SrvDone (set_cancelled s))
          | _ => None
          end
      | EvMainWake =>
          match mainPC s with
          | MWait =>
              if cancelled s then
                Some (set_main MLogged
                        (say (mkLog LevelInfo "shutting down HTTP server" logger) s))
              else None
          | _ => None
          end
      | EvShutdownBegin =>
          match mainPC s with
          | MLogged => Some (set_main MInShutdown s)
          | _ => None
          end
      | EvShutdownEnd e =>
          match mainPC s with
          | MInShutdown =>
              Some (set_main MShutdownDone
                      match e with
                      | Some e =>
                          say (mkLog LevelError "error on HTTP server shutdown"
                                 (logger ++ [("error", AStr e)])) s
                      | None => s
                      end)
          | _ => None
          end
      | EvMainExitLog =>
          match mainPC s with
          | MShutdownDone =>
              Some (set_main MExitLogged
                      (say (mkLog LevelInfo "exited cleanly" logger) s))
          | _ => None
          end
      | EvReturn closeErr =>
          match mainPC s with
          | MExitLogged =>
              Some (set_exit 0
                      (set_main MReturned
                         match closeErr with
                         | Some e =>
                             if sqlite then
                               say (mkLog LevelError "can not close DB"
                                      (logger ++ [("error", AStr e)])) s
                             else s
                         | None => s
                         end))
          | _ => None
          end
      end
  end.

Fixpoint run (cfg : Config) (sqlite : bool) (s : State) (evs : list Event)
  : option State :=
  match evs with
  | [] => Some s
  | ev :: evs' =>
      match step cfg sqlite s ev with
      | None => None
      | Some s' => run cfg sqlite s' evs'
      end
  end.

(** The process when [main] has launched both goroutines and blocks. *)
Definition running : State := mkState false SigWait SrvNew MWait [] None.

(** The steps that take [main] from where it stands to its return. *)
Definition finish (s : State) : list Event :=
  match mainPC s with
  | MWait => [EvMainWake; EvShutdownBegin; EvShutdownEnd None; EvMainExitLog;
              EvReturn None]
  | MLogged => [EvShutdownBegin; EvShutdownEnd None; EvMainExitLog; EvReturn None]
  | MInShutdown => [EvShutdownEnd None; EvMainExitLog; EvReturn None]
  | MShutdownDone => [EvMainExitLog; EvReturn None]
  | MExitLogged => [EvReturn None]
  | MReturned => []
  end.

End Lifecycle.

(** ** Earlier versions of the program *)

Module Earlier.

(** The version with the storage endpoints and without SQLite has the
    same handlers and the same [handle]; its logger is [slog.Default()],
    without attributes. *)
Definition serve `{GoLib} (ep : Endpoint) (cfg : Config) (req : Request)
  (W : World) : response * ResponseWriter * World :=
  let '(r, W) := handlerBody ep cfg req W in
  handle cfg [] r newWriter W.

(** [http.Error(w, msg, code)]: a plain-text answer, the message
    followed by a newline. *)
Definition Error (msg : string) (code : Z) (w : ResponseWriter) : ResponseWriter :=
  let w := Header_Set "Content-Type" "text/plain; charset=utf-8" w in
  let w := Header_Set "X-Content-Type-Options" "nosniff" w in
  let w := WriteHeader code w in
  Write (msg +:+ str1 newline) w.

(** The path the first version lists: the query parameter, or ["."]. *)
Definition listPath (req : Request) : string :=
  if String.eqb (Query_Get "path" (query req)) "" then "."
  else Query_Get "path" (query req).

(** The [/list] handler of the first version, which lists through the
    client that [main] connected at start-up: [getFileList] is
    [client.GetFileList]. The entries are copied into a fresh slice and
    encoded as a JSON array; an error of the encoder is discarded. When
    the handler returns, [net/http] sends the status 200 if none was
    written. *)
Definition listHandler `{GoLib}
  (getFileList : string -> Result (list FileInfo) error)
  (req : Request) (w : ResponseWriter) : ResponseWriter :=
  let path := listPath req in
  match getFileList path with
  | Err e =>
      Error ("Error reading dir " +:+ Quote path +:+ ": " +:+ e)
        StatusInternalServerError w
  | Ok entries =>
      let out := [] ++ entries in
      let w := Header_Set "Content-Type" "application/json" w in
      let w :=
        match marshalFiles out with
        | Ok js => Write (("[" +:+ String.concat "," js +:+ "]") +:+ str1 newline) w
        | Err _ => w
        end in
      WriteHeader StatusOK w
  end.

End Earlier.

(** The records that announce the two causes of a shutdown. *)
Definition isTrigger (r : LogRecord) : Prop :=
  msg r = "received shutdown signal" \/ msg r = "HTTP server error".

(** [before P Q l]: in the log [l] every record that satisfies [Q] comes
    after some record that satisfies [P]. *)
Definition before (P Q : LogRecord -> Prop) (l : list LogRecord) : Prop :=
  forall pre r post, l = pre ++ r :: post -> Q r -> exists x, In x pre /\ P x.

(** [has m l]: the log [l] holds a record with the message [m]. *)
Definition has (m : string) (l : list LogRecord) : Prop :=
  exists r, In r l /\ msg r = m.

(** What holds in every state the process can reach. *)
Record Inv (s : Lifecycle.State) : Prop := mkInv {
  inv_sig : Lifecycle.sigPC s <> Lifecycle.SigWait -> has "received shutdown signal" (Lifecycle.sink s);
  inv_srv : Lifecycle.srvPC s = Lifecycle.SrvFailed -> has "HTTP server error" (Lifecycle.sink s);
  inv_cancel : Lifecycle.cancelled s = true -> exists r, In r (Lifecycle.sink s) /\ isTrigger r;
  inv_main : Lifecycle.mainPC s <> Lifecycle.MWait -> Lifecycle.cancelled s = true;
  inv_logged : Lifecycle.mainPC s <> Lifecycle.MWait -> has "shutting down HTTP server" (Lifecycle.sink s);
  inv_exitlog :
    Lifecycle.mainPC s = Lifecycle.MExitLogged \/ Lifecycle.mainPC s = Lifecycle.MReturned -> has "exited cleanly" (Lifecycle.sink s);
  inv_exit : Lifecycle.exit s = match Lifecycle.mainPC s with Lifecycle.MReturned => Some 0 | _ => None end;
  inv_order1 :
    before isTrigger (fun r => msg r = "shutting down HTTP server") (Lifecycle.sink s);
  inv_order2 :
    before (fun r => msg r = "shutting down HTTP server")
      (fun r => msg r = "exited cleanly") (Lifecycle.sink s);
  inv_order3 :
    before (fun r => msg r = "exited cleanly")
      (fun r => msg r = "can not close DB") (Lifecycle.sink s)
}.

(** ** Vocabulary for the statements *)

(** Decimal numerals: an optional sign and at least one digit, with
    their value. *)
Definition isDigit (c : ascii) : bool :=
  (48 <=? byte_val c) && (byte_val c <=? 57).

Fixpoint allDigits (s : string) : bool :=
  match s with
  | EmptyString => true
  | String c s' => isDigit c && allDigits s'
  end.

Fixpoint decimalAcc (s : string) (n : Z) : Z :=
  match s with
  | EmptyString => n
  | String c s' => decimalAcc s' (n * 10 + (byte_val c - 48))
  end.

Definition splitSign (s : string) : bool * string :=
  match s with
  | String c rest =>
      if Ascii.eqb c "-" then (true, rest)
      else if Ascii.eqb c "+" then (false, rest)
      else (false, s)
  | EmptyString => (false, s)
  end.

Definition numeralValue (s : string) : option Z :=
  let '(neg, ds) := splitSign s in
  if negb (String.eqb ds "") && allDigits ds then
    Some (if neg then - decimalAcc ds 0 else decimalAcc ds 0)
  else None.

(** The path a [/list] request asks for: the query parameter, or the
    root when it is missing or empty. *)
Definition listPath (req : Request) : string :=
  if String.eqb (Query_Get "path" (query req)) "" then "/"
  else Query_Get "path" (query req).

(** The calls an endpoint may make: [/list] talks to the file server,
    the storage endpoints write, respectively read, the configured
    file. *)
Definition callOf (ep : Endpoint) (cfg : Config) (c : Call) : bool :=
  match ep, c with
  | List, CallNewNfsClient _ _ _ => true
  | List, CallGetFileList _ => true
  | WriteStorage, CallWriteFile name _ _ => String.eqb name (storagePathEnv cfg)
  | ReadStorage, CallReadFile name => String.eqb name (storagePathEnv cfg)
  | _, _ => false
  end.

Definition set_now (t : Time.Time) (W : World) : World :=
  mkWorld (fs W) (nfs W) t (calls W) (logs W).

(** Requests served one after the other, each at its own time of day;
    the result is the world after the last one. *)
Fixpoint serveAll `{GoLib} (cfg : Config)
  (rs : list (Endpoint * Request * Time.Time)) (W : World) : World :=
  match rs with
  | [] => W
  | (ep, req, t) :: rs' => serveAll cfg rs' (serve ep cfg req (set_now t W)).2
  end.

Fixpoint countIf {A} (p : A -> bool) (l : list A) : nat :=
  match l with
  | [] => 0%nat
  | x :: l' => ((if p x then 1 else 0) + countIf p l')%nat
  end.

(** Kinds of events of the probe loops: an INSERT that completes, a
    query that completes, the ticker firing, the read loop taking a
    tick, the write loop waking from its sleep. *)
Definition isExec (ev : Probe.Event) : bool :=
  match ev with Probe.EvWriterExec _ _ => true | _ => false end.
Definition isQuery (ev : Probe.Event) : bool :=
  match ev with Probe.EvReaderQuery _ => true | _ => false end.
Definition isTick (ev : Probe.Event) : bool :=
  match ev with Probe.EvTick => true | _ => false end.
Definition isTake (ev : Probe.Event) : bool :=
  match ev with Probe.EvReaderSelect Probe.ChooseTick => true | _ => false end.
Definition isWake (ev : Probe.Event) : bool :=
  match ev with Probe.EvWriterWake => true | _ => false end.

(** 1 when a query is in flight; 1 when a tick waits in the channel;
    1 when the write loop stands before its next INSERT. *)
Definition inQuery (s : Probe.State) : nat :=
  match Probe.reader s with Probe.RQuery => 1%nat | _ => 0%nat end.
Definition pendingTick (s : Probe.State) : nat :=
  if Probe.tick s then 1%nat else 0%nat.
Definition armed (s : Probe.State) : nat :=
  match Probe.writer s with
  | Probe.WSelect | Probe.WExec _ => 1%nat
  | _ => 0%nat
  end.

(** The three records the loops write to the log. *)
Definition isProbeRecord (logger : Logger) (r : LogRecord) : Prop :=
  (exists rest, attrs r = logger ++ rest)
  /\ ((level r = LevelError /\ (msg r = "WRITE error" \/ msg r = "read error"))
      \/ (level r = LevelInfo /\ msg r = "successful read")).

(** ** Concrete inputs *)

(** A stand-in for the library functions, to run the model on concrete
    inputs: the two durations used below, quoting without escapes, and
    files rendered by their names. *)
Definition sampleLib : GoLib := {|
  ParseDuration := fun s =>
    if String.eqb s "20s" then Ok 20000000000
    else if String.eqb s "10s" then Ok 10000000000
    else if String.eqb s "1s" then Ok 1000000000
    else Err ("time: invalid duration " +:+ quoted s);
  Quote := quoted;
  marshalFileInfo := fun f => Ok (Json.appendString (Name f))
|}.

(** The scenario of the specification: [NFS_SERVER=10.0.0.1],
    [NFS_SHARE=/export], [UID=0], [GID=0], everything else unset. *)
Definition scenarioEnv : Env :=
  mkEnv "10.0.0.1" "/export" "" "" "" "0" "0" "" "" "" "" "".

(** What [main_init] makes of it, with the default time-out of 20s. *)
Definition scenarioCfg : Config :=
  mkConfig "10.0.0.1" "/export" ":8080" 20000000000 "its-me" 0 0
    "" "" "" "1s" "10s".

(** [GET /list?path=/data] *)
Definition scenarioReq : Request := mkRequest [("path", "/data")].

(** The body the specification gives for the scenario. *)
Definition claimedBody : string :=
  "{" +:+ quoted "pod" +:+ ":" +:+ quoted "" +:+ ","
  +:+ quoted "error" +:+ ":" +:+ quoted "something went wrong" +:+ "}".

Definition sampleTime : Time.Time := Time.mkTime 2025 3 9 14 5 59 3600.

(** A world whose file server cannot be reached and whose local file
    system is empty and healthy. *)
Definition unreachableWorld : World :=
  mkWorld (mkFS ∅ (fun _ _ => None))
    (mkNfs (fun _ _ => Some "dial tcp 10.0.0.1:2049: i/o timeout")
           (fun _ => Err "not connected"))
    sampleTime [] [].

(** A world whose file server answers every listing with an empty
    directory. *)
Definition emptyDirWorld : World :=
  mkWorld (mkFS ∅ (fun _ _ => None))
    (mkNfs (fun _ _ => None) (fun _ => Ok []))
    sampleTime [] [].

(** Two rounds of the write loop, then a tick taken by the read loop,
    which is left inside its query. *)
Definition sampleSchedule : list Probe.Event :=
  [Probe.EvWriterSelect 7; Probe.EvWriterExec "2025-03-09 13:05:59" None;
   Probe.EvWriterWake;
   Probe.EvWriterSelect 42; Probe.EvWriterExec "2025-03-09 13:06:00" None;
   Probe.EvTick; Probe.EvReaderSelect Probe.ChooseTick].

(** A table left by an earlier run: two rows, and a row of id 12
    deleted since. *)
Definition oldTable : Store.Table :=
  Store.mkTable
    [Store.mkEntry 3 "pod-z" "2025-03-08 09:00:00" (Some "rand=1");
     Store.mkEntry 10 "pod-z" "2025-03-08 09:00:07" None]
    12.

Definition sampleLogger : Logger := [("pod_name", AStr "pod-a")].

(** The signal fires while the read loop is inside a query that lasts
    longer than a tick; the [select] that follows takes the pending tick
    and a new query begins, during which the ticker fires again; and
    once more. *)
Definition lateSchedule : list Probe.Event :=
  [Probe.EvTick; Probe.EvReaderSelect Probe.ChooseTick;
   Probe.EvTick; Probe.EvCancel; Probe.EvReaderQuery None;
   Probe.EvReaderSelect Probe.ChooseTick;
   Probe.EvTick; Probe.EvReaderQuery None;
   Probe.EvReaderSelect Probe.ChooseTick].

(** A stand-in whose file entries cannot be rendered, as when
    [time.Time.MarshalJSON] refuses the year of a modification time. *)
Definition failingLib : GoLib := {|
  ParseDuration := fun s => Err ("time: invalid duration " +:+ quoted s);
  Quote := quoted;
  marshalFileInfo := fun _ =>
    Err "json: error calling MarshalJSON for type time.Time: Time.MarshalJSON: year outside of range [0,9999]"
|}.

(** A world whose file server lists one file in every directory. *)
Definition oneFileWorld : World :=
  mkWorld (mkFS ∅ (fun _ _ => None))
    (mkNfs (fun _ _ => None)
           (fun _ => Ok [mkFileInfo "a.txt" false 12 sampleTime]))
    sampleTime [] [].

(** A configuration with a storage path and a pod name. *)
Definition storageCfg : Config :=
  mkConfig "10.0.0.1" "/export" ":8080" 20000000000 "its-me" 0 0
    "/data/probe.txt" "" "pod-a" "1s" "10s".

(** A table whose only row has the largest id there is. *)
Definition fullTable : Store.Table :=
  Store.mkTable
    [Store.mkEntry 9223372036854775807 "pod-z" "2025-03-08 09:00:00"
       (Some "rand=5")]
    9223372036854775807.

(** The listener cannot bind its port: the server goroutine logs the
    failure and cancels, [main] wakes up, shuts down and returns, and
    the deferred [closeDB] fails. *)
Definition failureSchedule : list Lifecycle.Event :=
  [Lifecycle.EvServe;
   Lifecycle.EvServeReturn (Some "listen tcp :8080: bind: address already in use");
   Lifecycle.EvSrvCancel; Lifecycle.EvMainWake; Lifecycle.EvShutdownBegin;
   Lifecycle.EvShutdownEnd None; Lifecycle.EvMainExitLog;
   Lifecycle.EvReturn (Some "database is locked")].

(* ================================================================== *)
(** * Properties *)
(* ================================================================== *)

Example atoi_ex1 : Strconv.Atoi "0" = Ok 0.
Proof. reflexivity. Qed.
Example atoi_ex2 : Strconv.Atoi "-1" = Ok (-1).
Proof. vm_compute. reflexivity. Qed.
Example atoi_ex3 : Strconv.Atoi "+4294967296" = Ok 4294967296.
Proof. vm_compute. reflexivity. Qed.
Example atoi_ex4 : Strconv.Atoi "9223372036854775807" = Ok 9223372036854775807.
Proof. vm_compute. reflexivity. Qed.
Example atoi_ex5 : Strconv.Atoi "9223372036854775808" = Err Strconv.ErrRange.
Proof. vm_compute. reflexivity. Qed.
Example atoi_ex6 : Strconv.Atoi "-9223372036854775808" = Ok (-9223372036854775808).
Proof. vm_compute. reflexivity. Qed.
Example atoi_ex7 : Strconv.Atoi "" = Err Strconv.ErrSyntax.
Proof. vm_compute. reflexivity. Qed.
Example atoi_ex8 : Strconv.Atoi "12a" = Err Strconv.ErrSyntax.
Proof. vm_compute. reflexivity. Qed.
Example atoi_ex9 : Strconv.Atoi "-" = Err Strconv.ErrSyntax.
Proof. vm_compute. reflexivity. Qed.
Example atoi_ex10 : Strconv.Atoi "99999999999999999999999" = Err Strconv.ErrRange.
Proof. vm_compute. reflexivity. Qed.
Example atoi_ex11 : Strconv.Atoi "1_000" = Err Strconv.ErrSyntax.
Proof. vm_compute. reflexivity. Qed.

(** Whatever [Atoi] accepts is a machine integer. *)
Lemma wrapInt_in_int (z : Z) : MachineInt.in_int (MachineInt.wrapInt z).
Proof.
  unfold MachineInt.in_int, MachineInt.wrapInt, MachineInt.minInt,
    MachineInt.maxInt, MachineInt.intSize.
  pose proof (Z.mod_pos_bound (z + 2 ^ (64 - 1)) (2 ^ 64) ltac:(lia)) as Hb.
  change (2 ^ (64 - 1)) with 9223372036854775808 in *.
  change (2 ^ 64) with 18446744073709551616 in *. lia.
Qed.

Lemma atoiLoop_in_int (s : string) (n m : Z) :
  MachineInt.in_int n -> Strconv.atoiLoop s n = Ok m -> MachineInt.in_int m.
Proof.
  revert n. induction s as [|ch s IH]; intros n Hn; simpl.
  - intros [= <-]. exact Hn.
  - destruct (9 <? _); [discriminate|]. apply IH. apply wrapInt_in_int.
Qed.

Lemma Atoi_in_int (s : string) (z : Z) :
  Strconv.Atoi s = Ok z -> MachineInt.in_int z.
Proof.
  unfold Strconv.Atoi. destruct (_ || _).
  - destruct s as [|c0 rest]; [discriminate|].
    destruct (_ && _); [discriminate|].
    destruct (Strconv.atoiLoop _ 0) as [n|e] eqn:Hl; [|discriminate].
    apply atoiLoop_in_int in Hl;
      [|unfold MachineInt.in_int, MachineInt.minInt, MachineInt.maxInt,
          MachineInt.intSize; simpl; lia].
    intros [= <-]. destruct (Ascii.eqb c0 "-"); [apply wrapInt_in_int | exact Hl].
  - destruct (Strconv.ParseInt s) as [i|e]; [|discriminate].
    intros [= <-]. apply wrapInt_in_int.
Qed.

Example json_ex1 : Json.appendString "something went wrong" = quoted "something went wrong".
Proof. vm_compute. reflexivity. Qed.
Example json_ex2 :
  Json.appendString ("a<b" +:+ str1 newline +:+ str1 dquote)
  = quoted ("a\u003cb\n\" +:+ str1 dquote).
Proof. vm_compute. reflexivity. Qed.
(** U+00E9 is copied, a stray byte 0xFF is replaced, U+2028 is escaped. *)
Example json_ex3 :
  Json.appendString
    (String (ascii_of_nat 195) (String (ascii_of_nat 169)
       (String (ascii_of_nat 255)
          (String (ascii_of_nat 226) (String (ascii_of_nat 128)
             (String (ascii_of_nat 168) "z"))))))
  = quoted (String (ascii_of_nat 195) (String (ascii_of_nat 169)
              ("\ufffd\u2028z"))).
Proof. vm_compute. reflexivity. Qed.
Example time_ex1 : Time.formatRFC3339 sampleTime = "2025-03-09T14:05:59+01:00".
Proof. vm_compute. reflexivity. Qed.
Example time_ex2 :
  Time.formatRFC3339 (Time.mkTime 2026 11 1 3 25 7 0) = "2026-11-01T03:25:07Z".
Proof. vm_compute. reflexivity. Qed.

(** ** The response envelope *)

Section Envelope.
Context `{GoLib}.

Lemma stringField_error :
  stringField "error" "something went wrong"
  = [quoted "error" +:+ ":" +:+ quoted "something went wrong"].
Proof. reflexivity. Qed.

(** What [handle] does with a fresh writer, whatever the handler body
    left in the envelope. *)
Lemma handle_facts cfg lg r W r' w' W' :
  handle cfg lg r newWriter W = (r', w', W') ->
  sentHeader "Content-Type" w' = Some "application/json"
  /\ Pod r' = podNameEnv cfg
  /\ err r' = err r /\ Message r' = Message r /\ Files r' = Files r
  /\ Error r' = match err r with
                | Some _ => "something went wrong"
                | None => Error r
                end
  /\ status w' = Some match err r with
                      | Some _ => StatusInternalServerError
                      | None => StatusOK
                      end
  /\ body w' = match Marshal r' with
               | Ok js => js +:+ str1 newline
               | Err _ => ""
               end
  /\ fs W' = fs W /\ calls W' = calls W
  /\ (forall e, err r = Some e ->
        exists more, logs W' = logs W ++ mkLog LevelError e lg :: more).
Proof.
  unfold handle. simpl.
  destruct (err r) as [e|] eqn:He; unfold Encode;
    match goal with |- context [Marshal ?x] => destruct (Marshal x) as [js|e'] eqn:Hm end;
    intros Heq; inversion Heq; subst; clear Heq; simpl; rewrite ?Hm;
    repeat split; try reflexivity; try assumption; try discriminate.
  - intros e0 He0. inversion He0; subst. exists []. unfold logAt.
    now rewrite app_nil_r.
  - intros e0 He0. inversion He0; subst. unfold logAt. rewrite app_nil_r.
    rewrite <- app_assoc. simpl. eauto.
Qed.

(** The three handler bodies leave the envelope in one of two shapes. *)
Lemma handlerBody_shape ep cfg req W r W1 :
  handlerBody ep cfg req W = (r, W1) ->
  Pod r = "" /\ Error r = ""
  /\ ((exists e, err r = Some e /\ Message r = "" /\ Files r = [])
      \/ (err r = None
          /\ match ep with
             | List => Message r = ""
             | _ => Message r <> "" /\ Files r = []
             end)).
Proof.
  intros Hb.
  destruct ep; simpl in Hb;
    unfold writeStorageBody, readStorageBody, listBody, WriteFile, ReadFile in Hb;
    simpl in Hb; repeat case_match; simplify_eq; simpl;
    (split; [reflexivity|]); (split; [reflexivity|]);
    first [ left; eexists; repeat split; reflexivity
          | right; repeat split; discriminate
          | right; repeat split; reflexivity ].
Qed.

End Envelope.

Section Handlers.
Context `{GoLib}.

Lemma serve_inv ep cfg req W r w W' :
  serve ep cfg req W = (r, w, W') ->
  exists r0 W0,
    handlerBody ep cfg req W = (r0, W0)
    /\ handle cfg (mainLogger cfg) r0 newWriter W0 = (r, w, W').
Proof.
  unfold serve. destruct (handlerBody ep cfg req W) as [r0 W0]. eauto.
Qed.

(** C1. For every request handled through the response envelope (/list,
    /write-storage, /read-storage), finalization sets Content-Type to
    application/json and stamps the configured pod label; when a domain
    error was recorded the status is 500, the error field is the fixed
    string "something went wrong", the error text itself goes to the log
    and the body is the one of [errorBody], which holds the pod label and
    the fixed string and nothing of the error text; otherwise the status
    is 200 and there is no error field. *)
Theorem envelope_finalization ep cfg req W r w W' :
  serve ep cfg req W = (r, w, W') ->
  sentHeader "Content-Type" w = Some "application/json"
  /\ Pod r = podNameEnv cfg
  /\ match err r with
     | Some e =>
         status w = Some 500
         /\ Error r = "something went wrong"
         /\ body w = errorBody (podNameEnv cfg)
         /\ In (mkLog LevelError e (mainLogger cfg)) (logs W')
     | None =>
         status w = Some 200
         /\ Error r = ""
         /\ body w = match Marshal r with
                     | Ok js => js +:+ str1 newline
                     | Err _ => ""
                     end
     end.
Proof.
  intros Hs. apply serve_inv in Hs as (r0 & W0 & Hb & Hh).
  apply handlerBody_shape in Hb as (Hp & He & Hsh).
  apply handle_facts in Hh
    as (Hct & Hpod & Herr & Hmsg & Hfl & Herror & Hst & Hbody & _ & _ & Hlog).
  split; [exact Hct|]. split; [exact Hpod|].
  rewrite Herr.
  destruct Hsh as [(e & He0 & Hm0 & Hf0) | (He0 & _)]; rewrite He0 in *.
  - split; [exact Hst|]. split; [exact Herror|]. split.
    + rewrite Hbody. unfold Marshal, errorBody.
      rewrite Hfl, Hf0, Hpod, Herror, Hmsg, Hm0. reflexivity.
    + destruct (Hlog e eq_refl) as [more ->].
      apply in_or_app. right. left. reflexivity.
  - split; [exact Hst|]. split; [congruence|]. exact Hbody.
Qed.


Lemma triple_eta {A B C} (p : A * B * C) : p = (p.1.1, p.1.2, p.2).
Proof. destruct p as [[a b] c]. reflexivity. Qed.


(** C4. With STORAGE_PATH empty, every call of /write-storage and of
    /read-storage, in whatever state of the world, answers 500 with the
    generic error body, records the error "no storage path set via
    STORAGE_PATH env variable" and logs it, and makes no call to the
    file system, which is left as it was; the answer is the same for
    every request and every state of the world. *)
Theorem storage_path_unset ep cfg req W r w W' :
  storagePathEnv cfg = "" ->
  ep = WriteStorage \/ ep = ReadStorage ->
  serve ep cfg req W = (r, w, W') ->
  status w = Some 500
  /\ err r = Some "no storage path set via STORAGE_PATH env variable"
  /\ body w = errorBody (podNameEnv cfg)
  /\ logs W' = logs W ++ [mkLog LevelError
                            "no storage path set via STORAGE_PATH env variable"
                            (mainLogger cfg)]
  /\ calls W' = calls W
  /\ fs W' = fs W
  /\ (forall req2 W2, (serve ep cfg req2 W2).1.2 = w).
Proof.
  intros Hp Hep Hs.
  assert (Hb : forall req0 W0,
             handlerBody ep cfg req0 W0
             = (set_err "no storage path set via STORAGE_PATH env variable"
                  emptyResponse, W0)).
  { intros req0 W0. destruct Hep as [-> | ->]; simpl;
      unfold writeStorageBody, readStorageBody; rewrite Hp; reflexivity. }
  unfold serve in *. rewrite Hb in Hs.
  unfold handle in Hs. simpl in Hs.
  inversion Hs; subst; clear Hs. simpl.
  unfold logAt. rewrite app_nil_r. repeat split; try reflexivity.
  intros req2 W2. rewrite Hb. reflexivity.
Qed.

(** What [/list] hands to [nfs4.NewNfsClient]. *)
Lemma listBody_connect cfg req W :
  exists rest,
    calls (listBody cfg req W).2
    = calls W
      ++ CallNewNfsClient (timeout cfg) (server cfg)
           (mkAuth (MachineInt.uint32 (uid cfg)) (MachineInt.uint32 (gid cfg))
              (machineName cfg))
      :: rest.
Proof.
  unfold listBody. simpl.
  destruct (nfs_connect _ _ _); simpl; [eauto|].
  destruct (nfs_list _ _); simpl; rewrite <- app_assoc; simpl; eauto.
Qed.

(** C10. Whenever UID and GID parse as machine integers, start-up
    accepts them as they are, negative or beyond 32 bits, and every
    /list request connects with them reduced modulo 2^32; in particular
    UID=-1 parses to -1 and is sent as 4294967295. *)
Theorem uid_gid_truncated (e : Env) (u g d : Z) :
  NFS_SERVER e <> "" -> NFS_SHARE e <> "" ->
  ParseDuration (orDefault (TIMEOUT e) "20s") = Ok d ->
  Strconv.Atoi (UID e) = Ok u ->
  Strconv.Atoi (GID e) = Ok g ->
  (exists cfg,
      main_init e = Ok cfg /\ uid cfg = u /\ gid cfg = g
      /\ forall req W, exists rest,
           calls (listBody cfg req W).2
           = calls W
             ++ CallNewNfsClient d (NFS_SERVER e)
                  (mkAuth (u mod 2 ^ 32) (g mod 2 ^ 32) (machineName cfg))
             :: rest)
  /\ MachineInt.in_int u /\ MachineInt.in_int g
  /\ 0 <= u mod 2 ^ 32 < 2 ^ 32 /\ 0 <= g mod 2 ^ 32 < 2 ^ 32
  /\ Strconv.Atoi "-1" = Ok (-1) /\ (-1) mod 2 ^ 32 = 4294967295
  /\ Strconv.Atoi "4294967296" = Ok 4294967296.
Proof.
  intros Hs Hsh Hd Hu Hg.
  split; [|split; [exact (Atoi_in_int _ _ Hu)|split; [exact (Atoi_in_int _ _ Hg)|]]];
    [|split; [|split; [|split; [|split]]]].
  - unfold main_init.
    apply String.eqb_neq in Hs, Hsh. rewrite Hs, Hsh. simpl.
    rewrite Hd, Hu, Hg. eexists. split; [reflexivity|]. simpl.
    split; [reflexivity|]. split; [reflexivity|].
    intros req W.
    destruct (listBody_connect
                (mkConfig (NFS_SERVER e) (NFS_SHARE e) (orDefault (PORT e) ":8080")
                   d (orDefault (MACHINE_NAME e) "its-me") u g (STORAGE_PATH e)
                   (SQLITE_STORAGE_PATH e) (POD_NAME e)
                   (orDefault (WRITE_INTERVAL e) "1s")
                   (orDefault (READ_INTERVAL e) "10s")) req W) as [rest Hr].
    exists rest. exact Hr.
  - apply Z.mod_pos_bound. lia.
  - apply Z.mod_pos_bound. lia.
  - vm_compute. reflexivity.
  - reflexivity.
  - vm_compute. reflexivity.
Qed.


(** C2, as amended. In the scenario of the specification (server
    10.0.0.1, share /export, UID and GID 0, no pod name, the default
    time-out) start-up succeeds, and GET /list?path=/data against a
    server that cannot be reached answers 500 with the body
    [{"error":"something went wrong"}] and a newline: the pod field is
    left out because the label is empty. *)
Theorem scenario_unreachable (d : Z) (req : Request) (W : World) (e : error) :
  ParseDuration "20s" = Ok d ->
  Query_Get "path" (query req) = "/data" ->
  (forall auth, nfs_connect (nfs W) "10.0.0.1" auth = Some e) ->
  exists cfg,
    main_init scenarioEnv = Ok cfg
    /\ status (serve List cfg req W).1.2 = Some 500
    /\ body (serve List cfg req W).1.2
       = "{" +:+ quoted "error" +:+ ":" +:+ quoted "something went wrong" +:+ "}"
         +:+ str1 newline.
Proof.
  intros Hd Hq Hc.
  exists (mkConfig "10.0.0.1" "/export" ":8080" d "its-me" 0 0 "" "" "" "1s" "10s").
  split.
  - cbv -[ParseDuration]. rewrite Hd. reflexivity.
  - unfold serve, handlerBody, listBody. simpl. rewrite Hc.
    unfold handle. simpl. split; reflexivity.
Qed.

End Handlers.

Example scenario_init : main_init (H := sampleLib) scenarioEnv = Ok scenarioCfg.
Proof. vm_compute. reflexivity. Qed.

Lemma scenario_unreachable_witness :
  exists cfg,
    main_init (H := sampleLib) scenarioEnv = Ok cfg
    /\ status (serve (H := sampleLib) List cfg scenarioReq unreachableWorld).1.2
       = Some 500
    /\ body (serve (H := sampleLib) List cfg scenarioReq unreachableWorld).1.2
       = "{" +:+ quoted "error" +:+ ":" +:+ quoted "something went wrong" +:+ "}"
         +:+ str1 newline.
Proof.
  apply (scenario_unreachable (H := sampleLib) 20000000000 scenarioReq
           unreachableWorld "dial tcp 10.0.0.1:2049: i/o timeout");
    [reflexivity | reflexivity | intros auth; reflexivity].
Defined.

(** C2 as the specification states it fails: in the scenario the body is
    not [{"pod":"","error":"something went wrong"}], with or without the
    newline of the encoder; it is [{"error":"something went wrong"}]. *)
Lemma scenario_body_has_no_pod :
  let w := (serve (H := sampleLib) List scenarioCfg scenarioReq unreachableWorld).1.2 in
  main_init (H := sampleLib) scenarioEnv = Ok scenarioCfg
  /\ status w = Some 500
  /\ body w <> claimedBody
  /\ body w <> claimedBody +:+ str1 newline
  /\ body w = "{" +:+ quoted "error" +:+ ":" +:+ quoted "something went wrong" +:+ "}"
              +:+ str1 newline.
Proof.
  vm_compute. repeat split; try reflexivity; discriminate.
Qed.


Lemma envelope_finalization_witness :
  let o := serve (H := sampleLib) List scenarioCfg scenarioReq unreachableWorld in
  status o.1.2 = Some 500
  /\ Error o.1.1 = "something went wrong"
  /\ body o.1.2 = errorBody "".
Proof.
  pose proof (envelope_finalization (H := sampleLib) List scenarioCfg scenarioReq
                unreachableWorld _ _ _ (triple_eta _)) as (_ & _ & Hm).
  vm_compute in Hm. vm_compute.
  destruct Hm as (H1 & H2 & H3 & _). repeat split; assumption.
Defined.


Lemma storage_path_unset_witness :
  let o := serve (H := sampleLib) WriteStorage scenarioCfg scenarioReq emptyDirWorld in
  status o.1.2 = Some 500
  /\ err o.1.1 = Some "no storage path set via STORAGE_PATH env variable"
  /\ calls o.2 = [].
Proof.
  pose proof (storage_path_unset (H := sampleLib) WriteStorage scenarioCfg scenarioReq
                emptyDirWorld _ _ _ eq_refl (or_introl eq_refl) (triple_eta _))
    as (H1 & H2 & _ & _ & H5 & _).
  repeat split; assumption.
Defined.

Lemma uid_gid_truncated_witness :
  exists cfg,
    main_init (H := sampleLib)
      (mkEnv "10.0.0.1" "/export" "" "" "" "-1" "4294967297" "" "" "" "" "")
    = Ok cfg
    /\ uid cfg = -1 /\ gid cfg = 4294967297
    /\ exists rest,
         calls (listBody (H := sampleLib) cfg scenarioReq unreachableWorld).2
         = CallNewNfsClient 20000000000 "10.0.0.1" (mkAuth 4294967295 1 "its-me")
           :: rest.
Proof.
  destruct (uid_gid_truncated (H := sampleLib)
              (mkEnv "10.0.0.1" "/export" "" "" "" "-1" "4294967297" "" "" "" "" "")
              (-1) 4294967297 20000000000)
    as [(cfg & Hi & Hu & Hg & Hc) _];
    [discriminate | discriminate | reflexivity
    | vm_compute; reflexivity | vm_compute; reflexivity |].
  exists cfg. split; [exact Hi|]. split; [exact Hu|]. split; [exact Hg|].
  destruct (Hc scenarioReq unreachableWorld) as [rest Hr].
  exists rest. rewrite Hr. vm_compute in Hi. inversion Hi. reflexivity.
Defined.

(** ** The RFC 3339 layout can be read back *)

Module TimeFacts.
Import Time.

(** Linear arithmetic with division and remainder by constants. *)
Ltac zdiv := Z.to_euclidean_division_equations; lia.

Lemma digitVal_digit (d : Z) : 0 <= d <= 9 -> digitVal (digit d) = Some d.
Proof.
  intros Hd.
  assert (Hc : d = 0 \/ d = 1 \/ d = 2 \/ d = 3 \/ d = 4 \/ d = 5 \/ d = 6
               \/ d = 7 \/ d = 8 \/ d = 9) by lia.
  repeat (destruct Hc as [-> | Hc]; [reflexivity|]). subst. reflexivity.
Qed.

Lemma take2_digits (a b : Z) (rest : string) :
  0 <= a <= 9 -> 0 <= b <= 9 ->
  take2 (String (digit a) (String (digit b) rest)) = Some (10 * a + b, rest).
Proof.
  intros Ha Hb. unfold take2.
  rewrite (digitVal_digit a Ha), (digitVal_digit b Hb). reflexivity.
Qed.

Lemma appendInt2 (x : Z) :
  0 <= x < 100 ->
  appendInt x 2 = String (digit (x / 10)) (String (digit (x mod 10)) "").
Proof.
  intros Hx. unfold appendInt.
  replace (x <? 0) with false by (symmetry; apply Z.ltb_ge; lia).
  rewrite Z.abs_eq by lia.
  replace (x <? 100) with true by (symmetry; apply Z.ltb_lt; lia).
  reflexivity.
Qed.

Lemma appendInt4 (x : Z) :
  0 <= x < 10000 ->
  appendInt x 4
  = String (digit (x / 1000))
      (String (digit (x / 100 mod 10))
         (String (digit (x / 10 mod 10)) (String (digit (x mod 10)) ""))).
Proof.
  intros Hx. unfold appendInt.
  replace (x <? 0) with false by (symmetry; apply Z.ltb_ge; lia).
  rewrite Z.abs_eq by lia.
  replace (x <? 10000) with true by (symmetry; apply Z.ltb_lt; lia).
  reflexivity.
Qed.

Lemma take2_appendInt (x : Z) (rest : string) :
  0 <= x < 100 -> take2 (appendInt x 2 +:+ rest) = Some (x, rest).
Proof.
  intros Hx. rewrite appendInt2 by exact Hx.
  change (take2 (String (digit (x / 10)) (String (digit (x mod 10)) rest))
          = Some (x, rest)).
  rewrite take2_digits by zdiv. f_equal. f_equal. zdiv.
Qed.

Lemma take4_appendInt (x : Z) (rest : string) :
  0 <= x < 10000 -> take4 (appendInt x 4 +:+ rest) = Some (x, rest).
Proof.
  intros Hx. rewrite appendInt4 by exact Hx.
  change (take4 (String (digit (x / 1000))
                   (String (digit (x / 100 mod 10))
                      (String (digit (x / 10 mod 10))
                         (String (digit (x mod 10)) rest))))
          = Some (x, rest)).
  assert (H100 : x / 100 = x / 10 / 10) by (rewrite Z.div_div by lia; reflexivity).
  assert (H1000 : x / 1000 = x / 10 / 10 / 10)
    by (rewrite !Z.div_div by lia; reflexivity).
  assert (0 <= x / 1000 <= 9) by (rewrite ?H1000; zdiv).
  assert (0 <= x / 100 mod 10 <= 9) by zdiv.
  assert (0 <= x / 10 mod 10 <= 9) by zdiv.
  assert (0 <= x mod 10 <= 9) by zdiv.
  unfold take4. rewrite take2_digits by assumption. cbn [mbind option_bind].
  rewrite take2_digits by assumption. cbn [mbind option_bind]. f_equal. f_equal.
  rewrite H1000, H100. zdiv.
Qed.
Lemma expect_head (c : ascii) (rest : string) :
  expect c (String c rest) = Some rest.
Proof. unfold expect. now rewrite Ascii.eqb_refl. Qed.


Lemma take2_appendInt_end (x : Z) :
  0 <= x < 100 -> take2 (appendInt x 2) = Some (x, "").
Proof.
  intros Hx. rewrite appendInt2 by exact Hx.
  rewrite take2_digits by zdiv. f_equal. f_equal. zdiv.
Qed.

Lemma parseZone_signed (c : ascii) (zh zm : Z) :
  Ascii.eqb c "Z" = false -> Ascii.eqb c "+" || Ascii.eqb c "-" = true ->
  0 <= zh < 24 -> 0 <= zm < 60 ->
  parseZone (String c (appendInt zh 2 +:+ ":" +:+ appendInt zm 2))
  = Some ((if Ascii.eqb c "-" then -1 else 1) * (zh * 3600 + zm * 60)).
Proof.
  intros Hc1 Hc2 Hh Hm. unfold parseZone. rewrite Hc1, Hc2.
  rewrite take2_appendInt by lia. cbn [mbind option_bind].
  change (":" +:+ appendInt zm 2) with (String ":" (appendInt zm 2)).
  rewrite expect_head. cbn [mbind option_bind].
  rewrite take2_appendInt_end by lia. cbn [mbind option_bind String.eqb andb].
  replace (zh <=? 23) with true by (symmetry; apply Z.leb_le; lia).
  replace (zm <=? 59) with true by (symmetry; apply Z.leb_le; lia).
  reflexivity.
Qed.

Lemma parseZone_format (off : Z) :
  -86400 < off < 86400 ->
  parseZone (if off =? 0 then "Z"
             else
               let zone := Z.quot off 60 in
               (if zone <? 0 then "-" else "+")
               +:+ appendInt (Z.quot (Z.abs zone) 60) 2 +:+ ":"
               +:+ appendInt (Z.rem (Z.abs zone) 60) 2)
  = Some (60 * Z.quot off 60).
Proof.
  intros Hoff. destruct (Z.eqb_spec off 0) as [-> | Hne]; [reflexivity|].
  cbv zeta. set (zone := Z.quot off 60).
  assert (Hz : -1440 < zone < 1440) by (subst zone; zdiv).
  assert (Hh : 0 <= Z.quot (Z.abs zone) 60 < 24) by zdiv.
  assert (Hm : 0 <= Z.rem (Z.abs zone) 60 < 60) by zdiv.
  destruct (Z.ltb_spec zone 0) as [Hneg | Hpos].
  - change ("-" +:+ ?x) with (String "-" x).
    rewrite parseZone_signed by (reflexivity || assumption).
    cbn [Ascii.eqb Bool.eqb]. f_equal. zdiv.
  - change ("+" +:+ ?x) with (String "+" x).
    rewrite parseZone_signed by (reflexivity || assumption).
    cbn [Ascii.eqb Bool.eqb]. f_equal. zdiv.
Qed.

(** What [formatRFC3339] prints is read back by [parseRFC3339] as the
    same instant, its zone cut to whole minutes. *)
Lemma parse_format (t : Time) :
  valid t -> parseRFC3339 (formatRFC3339 t) = Some (truncZone t).
Proof.
  intros (Hy & Hmo & Hd & Hh & Hmi & Hs & Hoff).
  unfold formatRFC3339, parseRFC3339.
  rewrite take4_appendInt by lia. cbn [mbind option_bind].
  change ("-" +:+ ?x) with (String "-" x). rewrite expect_head.
  cbn [mbind option_bind]. rewrite take2_appendInt by lia.
  cbn [mbind option_bind].
  change ("-" +:+ ?x) with (String "-" x). rewrite expect_head.
  cbn [mbind option_bind]. rewrite take2_appendInt by lia.
  cbn [mbind option_bind].
  change ("T" +:+ ?x) with (String "T" x). rewrite expect_head.
  cbn [mbind option_bind]. rewrite take2_appendInt by lia.
  cbn [mbind option_bind].
  change (":" +:+ ?x) with (String ":" x). rewrite expect_head.
  cbn [mbind option_bind]. rewrite take2_appendInt by lia.
  cbn [mbind option_bind].
  change (":" +:+ ?x) with (String ":" x). rewrite expect_head.
  cbn [mbind option_bind]. rewrite take2_appendInt by lia.
  cbn [mbind option_bind].
  rewrite parseZone_format by exact Hoff. cbn [mbind option_bind].
  replace (1 <=? month t) with true by (symmetry; apply Z.leb_le; lia).
  replace (month t <=? 12) with true by (symmetry; apply Z.leb_le; lia).
  replace (1 <=? day t) with true by (symmetry; apply Z.leb_le; lia).
  replace (day t <=? 31) with true by (symmetry; apply Z.leb_le; lia).
  replace (hour t <=? 23) with true by (symmetry; apply Z.leb_le; lia).
  replace (minute t <=? 59) with true by (symmetry; apply Z.leb_le; lia).
  replace (second t <=? 59) with true by (symmetry; apply Z.leb_le; lia).
  reflexivity.
Qed.

End TimeFacts.

(** ** The durable scalar: write, then read *)

Section Scalar.
Context `{GoLib}.




End Scalar.


(** ** The store *)

Module StoreFacts.
Import Store.

Lemma maxId_ge (l : list Entry) (e : Entry) : In e l -> id e <= maxId l.
Proof.
  induction l as [|x l IH]; simpl; [tauto|].
  intros [-> | Hin]; [lia | specialize (IH Hin); lia].
Qed.

(** What a successful INSERT does: one row is appended, with the given
    pod and payload, under an id above every id of the table. *)
Lemma insert_ok podName stamp pl fault (t t' : Table) (e : Entry) :
  insert podName stamp pl fault t = Ok (t', e) ->
  entries t' = entries t ++ [e]
  /\ e = mkEntry (nextId t) podName stamp (Some pl)
  /\ (forall x, In x (entries t) -> id x < id e).
Proof.
  unfold insert. destruct fault; [discriminate|].
  destruct (maxRowid <? nextId t); [discriminate|].
  intros [= <- <-]. simpl. repeat split.
  intros x Hx. apply maxId_ge in Hx. unfold nextId. lia.
Qed.


Lemma sorted_snoc (l : list Z) (x : Z) :
  StronglySorted Z.lt l -> (forall y, In y l -> y < x) ->
  StronglySorted Z.lt (l ++ [x]).
Proof.
  induction 1 as [|a l Hs IH Ha]; intros Hlt; simpl.
  - constructor; constructor.
  - constructor.
    + apply IH. intros y Hy. apply Hlt. now right.
    + apply Forall_app. split; [exact Ha|].
      constructor; [|constructor]. apply Hlt. now left.
Qed.

End StoreFacts.

(** ** The probe loops *)

Section Loops.
Context `{GoLib}.
Variable podName : string.
Variable logger : Logger.

Import Store Probe.

Lemma run_app (s : State) (evs1 evs2 : list Event) :
  run podName logger s (evs1 ++ evs2)
  = match run podName logger s evs1 with
    | Some s1 => run podName logger s1 evs2
    | None => None
    end.
Proof.
  revert s. induction evs1 as [|ev evs1 IH]; intros s; simpl; [reflexivity|].
  destruct (step podName logger s ev); [apply IH | reflexivity].
Qed.

(** A step leaves the table alone or appends the one row that the
    INSERT in flight has made. *)
Lemma step_rows (s s' : State) (ev : Event) :
  step podName logger s ev = Some s' ->
  (db s' = db s /\ written s' = written s)
  \/ (exists pl stamp e,
        writer s = WExec pl
        /\ ev = EvWriterExec stamp None
        /\ e = mkEntry (nextId (db s)) podName stamp (Some pl)
        /\ entries (db s') = entries (db s) ++ [e]
        /\ written s' = written s ++ [e]
        /\ (forall x, In x (entries (db s)) -> id x < id e)).
Proof.
  destruct ev; simpl.
  - intros [= <-]. now left.
  - intros [= <-]. now left.
  - destruct (writer s); try discriminate.
    destruct (cancelled s); intros [= <-]; now left.
  - destruct (writer s) as [|pl| |] eqn:Hw; try discriminate.
    destruct (insert podName stamp pl fault (db s)) as [[t e]|err0] eqn:Hi.
    + intros [= <-]. right.
      assert (fault = None) as -> by (destruct fault; [discriminate|reflexivity]).
      apply StoreFacts.insert_ok in Hi as (Hent & He & Hlt).
      exists pl, stamp, e. simpl. repeat split; assumption.
    + intros [= <-]. now left.
  - destruct (writer s); try discriminate. intros [= <-]. now left.
  - destruct (reader s), c; try discriminate.
    + destruct (cancelled s); [|discriminate]. intros [= <-]. now left.
    + destruct (tick s); [|discriminate]. intros [= <-]. now left.
  - destruct (reader s); try discriminate.
    destruct (queryRow fault (db s)) as [[[[c p] t] pl]|err0];
      intros [= <-]; now left.
Qed.

(** The rows a run appends: the table and the list of written rows grow
    by the same rows, whose ids increase strictly and lie above every id
    that was in the table before. *)
Lemma run_rows (evs : list Event) (s s' : State) :
  run podName logger s evs = Some s' ->
  exists more,
    entries (db s') = entries (db s) ++ more
    /\ written s' = written s ++ more
    /\ StronglySorted Z.lt (map id more)
    /\ (forall x e, In x (entries (db s)) -> In e more -> id x < id e)
    /\ (forall e, In e more -> pod e = podName /\ payload e <> None).
Proof.
  revert s. induction evs as [|ev evs IH]; intros s; simpl.
  - intros [= <-]. exists []. rewrite !app_nil_r. simpl.
    repeat split; try constructor; tauto.
  - destruct (step podName logger s ev) as [s1|] eqn:Hs; [|discriminate].
    intros Hr. apply IH in Hr as (more & He & Hw & Hso & Hlt & Hp).
    apply step_rows in Hs
      as [[Hd Hwr] | (pl & stamp & e & _ & _ & Hedef & Hent & Hwr & Hnew)].
    + exists more. rewrite He, Hw, Hd, Hwr. repeat split; try assumption.
      * intros x e Hx. apply Hlt. now rewrite Hd.
      * apply Hp. assumption.
      * apply Hp. assumption.
    + exists (e :: more). rewrite He, Hw, Hent, Hwr, <- !app_assoc. simpl.
      split; [reflexivity|]. split; [reflexivity|].
      split; [|split; [|intros e' He'; split]].
      * constructor; [exact Hso|]. apply List.Forall_forall. intros i Hi.
        apply in_map_iff in Hi as (e' & <- & Hin).
        apply (Hlt e e'); [|exact Hin]. rewrite Hent. apply in_or_app.
        right. now left.
      * intros x e' Hx [<- | Hin]; [now apply Hnew|].
        apply (Hlt x e'); [|exact Hin]. rewrite Hent. apply in_or_app. now left.
      * destruct He' as [<- | Hin]; [subst e; reflexivity | now apply Hp].
      * destruct He' as [<- | Hin]; [subst e; discriminate | now apply Hp].
Qed.


(** [setupSqlite] leaves the loops at their start on the table it
    found, or on an empty one when it had to create it. *)
Lemma setupSqlite_started (file : option Table) (rd wr : string) (st : State) :
  setupSqlite file None None rd wr = Ok st ->
  st = started (createSchema file)
  /\ (file = None -> st = started emptyTable).
Proof.
  unfold setupSqlite.
  destruct (ParseDuration rd); [|discriminate].
  destruct (ParseDuration wr); [|discriminate].
  intros [= <-]. split; [reflexivity|]. intros ->. reflexivity.
Qed.

(** C7. Along any run of the loops, from a database file in whatever
    state, the rows the write cycle has inserted have strictly
    increasing ids in the order of their insertion, all above the ids
    found at start-up; and whatever happens next, the table keeps every
    row it holds, unchanged and in place: rows are only appended. *)
Theorem ids_increase_rows_stay (t0 : Table) (evs1 evs2 : list Event)
  (s1 s2 : State) :
  run podName logger (started t0) evs1 = Some s1 ->
  run podName logger s1 evs2 = Some s2 ->
  StronglySorted Z.lt (map id (written s2))
  /\ (forall x e, In x (entries t0) -> In e (written s2) -> id x < id e)
  /\ entries (db s2) = entries t0 ++ written s2
  /\ exists more,
       entries (db s2) = entries (db s1) ++ more
       /\ written s2 = written s1 ++ more.
Proof.
  intros H1 H2.
  assert (H12 : run podName logger (started t0) (evs1 ++ evs2) = Some s2)
    by (rewrite run_app, H1; exact H2).
  apply run_rows in H12 as (all & He & Hw & Hso & Hlt & _).
  apply run_rows in H2 as (more & He2 & Hw2 & _).
  simpl in He, Hw, Hlt. subst all.
  split; [exact Hso|]. split; [exact Hlt|]. split; [exact He|].
  exists more. split; assumption.
Qed.



(** C8. With the table empty, the query of a read tick meets no fault
    of the store and yet fails in [Scan], on the NULL of the first
    subquery; the error is logged as "read error", no snapshot is
    logged, the store is left as it was, and the read loop is back at
    its [select], where the next tick starts the next query. *)
Theorem empty_table_read_error (s : State) :
  entries (db s) = [] ->
  reader s = RQuery ->
  exists s',
    step podName logger s (EvReaderQuery None) = Some s'
    /\ queryRow None (db s)
       = Err (scanNull 1 "(SELECT pod FROM entries ORDER BY id DESC LIMIT 1)")
    /\ sink s'
       = sink s
         ++ [mkLog LevelError "read error"
               (logger
                ++ [("error",
                     AStr (scanNull 1
                             "(SELECT pod FROM entries ORDER BY id DESC LIMIT 1)"))])]
    /\ db s' = db s /\ written s' = written s
    /\ writer s' = writer s /\ cancelled s' = cancelled s
    /\ reader s' = RSelect
    /\ exists s'',
         run podName logger s' [EvTick; EvReaderSelect ChooseTick] = Some s''
         /\ reader s'' = RQuery /\ sink s'' = sink s'.
Proof.
  intros He Hr. simpl. rewrite Hr.
  unfold queryRow, aggregate. rewrite He. simpl.
  eexists. split; [reflexivity|]. simpl.
  repeat split. eexists. repeat split.
Qed.

(** ** Cancellation *)

Lemma step_cancelled (s s' : State) (ev : Event) :
  step podName logger s ev = Some s' -> cancelled s = true -> cancelled s' = true.
Proof.
  intros Hs Hc. destruct ev; simpl in Hs.
  - now inversion Hs.
  - inversion Hs. exact Hc.
  - destruct (writer s); try discriminate. rewrite Hc in Hs. inversion Hs. exact Hc.
  - destruct (writer s); try discriminate.
    destruct (insert _ _ _ _ _) as [[t e]|e]; inversion Hs; exact Hc.
  - destruct (writer s); try discriminate. inversion Hs. exact Hc.
  - destruct (reader s), c; try discriminate.
    + rewrite Hc in Hs. inversion Hs. exact Hc.
    + destruct (tick s); [|discriminate]. inversion Hs. exact Hc.
  - destruct (reader s); try discriminate.
    destruct (queryRow _ _) as [[[[c p] t] pl]|e]; inversion Hs; exact Hc.
Qed.

(** Once the signal has fired, a step of the write loop never leaves it
    inside an INSERT unless it was there before: no insert begins. *)
Lemma step_no_new_insert (s s' : State) (ev : Event) :
  step podName logger s ev = Some s' -> cancelled s = true ->
  (written s' = written s /\ (forall pl, writer s' = WExec pl -> writer s = WExec pl))
  \/ (exists pl e, writer s = WExec pl /\ written s' = written s ++ [e]
                   /\ writer s' = WSleep).
Proof.
  intros Hs Hc. destruct ev; simpl in Hs.
  - inversion Hs. left. split; [reflexivity|]. simpl. tauto.
  - inversion Hs. left. split; [reflexivity|]. simpl. tauto.
  - destruct (writer s); try discriminate. rewrite Hc in Hs. inversion Hs.
    left. split; [reflexivity|]. simpl. discriminate.
  - destruct (writer s) as [|pl| |] eqn:Hw; try discriminate.
    destruct (insert _ _ _ _ _) as [[t e]|e]; inversion Hs.
    + right. exists pl, e. simpl. repeat split.
    + left. split; [reflexivity|]. simpl. discriminate.
  - destruct (writer s); try discriminate. inversion Hs.
    left. split; [reflexivity|]. simpl. discriminate.
  - destruct (reader s), c; try discriminate.
    + rewrite Hc in Hs. inversion Hs. left. split; [reflexivity|]. simpl. tauto.
    + destruct (tick s); [|discriminate]. inversion Hs.
      left. split; [reflexivity|]. simpl. tauto.
  - destruct (reader s); try discriminate.
    destruct (queryRow _ _) as [[[[c p] t] pl]|e]; inversion Hs;
      left; (split; [reflexivity|]); simpl; tauto.
Qed.

Lemma run_no_new_insert (evs : list Event) (s s' : State) :
  run podName logger s evs = Some s' -> cancelled s = true ->
  cancelled s' = true
  /\ ((written s' = written s
       /\ (forall pl, writer s' = WExec pl -> writer s = WExec pl))
      \/ (exists pl e, writer s = WExec pl /\ written s' = written s ++ [e]
                       /\ forall pl', writer s' <> WExec pl')).
Proof.
  revert s. induction evs as [|ev evs IH]; intros s; simpl.
  - intros [= <-] Hc. split; [exact Hc|]. left. tauto.
  - destruct (step podName logger s ev) as [s1|] eqn:Hs; [|discriminate].
    intros Hr Hc. pose proof (step_cancelled _ _ _ Hs Hc) as Hc1.
    destruct (IH _ Hr Hc1) as [Hc' Hrest]. split; [exact Hc'|].
    destruct (step_no_new_insert _ _ _ Hs Hc)
      as [[Hw Hx] | (pl & e & Hx & Hw & Hsl)].
    + destruct Hrest as [[Hw' Hx'] | (pl & e & Hx' & Hw' & Hn)].
      * left. split; [congruence|]. intros pl Hpl. apply Hx, Hx', Hpl.
      * right. exists pl, e. split; [apply Hx, Hx'|]. split; [congruence|exact Hn].
    + destruct Hrest as [[Hw' Hx'] | (pl' & e' & Hx' & _)].
      * right. exists pl, e. split; [exact Hx|]. split; [congruence|].
        intros pl' Hpl'. apply Hx' in Hpl'. congruence.
      * congruence.
Qed.

(** A goroutine that has returned takes no further step. *)
Lemma returned_is_final (evs : list Event) (s s' : State) :
  run podName logger s evs = Some s' ->
  (writer s = WReturned ->
   forallb (fun ev => negb (isWriterEvent ev)) evs = true
   /\ writer s' = WReturned /\ db s' = db s)
  /\ (reader s = RReturned ->
      forallb (fun ev => negb (isReaderEvent ev)) evs = true
      /\ reader s' = RReturned).
Proof.
  revert s. induction evs as [|ev evs IH]; intros s; simpl.
  - intros [= <-]. tauto.
  - destruct (step podName logger s ev) as [s1|] eqn:Hs; [|discriminate].
    intros Hr. destruct (IH _ Hr) as [IHw IHr]. split.
    + intros Hw.
      destruct ev; simpl in Hs; rewrite ?Hw in Hs; repeat case_match;
        simplify_eq; simpl in *;
        destruct (IHw Hw) as (Ha & Hb & Hc); repeat split; assumption.
    + intros Hrd.
      destruct ev; simpl in Hs; rewrite ?Hrd in Hs; repeat case_match;
        simplify_eq; simpl in *;
        destruct (IHr Hrd) as (Ha & Hb); repeat split; assumption.
Qed.

(** C9, as amended. Once the signal has fired it stays; the write loop
    begins no insert any more (at most the INSERT in flight completes and
    adds its row) and its next [select] returns; the [select] of the read
    loop can return at once, and does so when no tick is pending; a loop
    that has returned takes no further step, so no insert or query begins
    after the check that observes the signal; and an operation in flight
    completes whether or not the signal has fired. *)
Theorem cancellation (evs : list Event) (s s' : State) :
  cancelled s = true ->
  run podName logger s evs = Some s' ->
  cancelled s' = true
  /\ ((written s' = written s
       /\ (forall pl, writer s' = WExec pl -> writer s = WExec pl))
      \/ (exists pl e, writer s = WExec pl /\ written s' = written s ++ [e]
                       /\ forall pl', writer s' <> WExec pl'))
  /\ (writer s = WSelect ->
      forall rnd, step podName logger s (EvWriterSelect rnd)
                  = Some (set_writer WReturned s))
  /\ (reader s = RSelect ->
      step podName logger s (EvReaderSelect ChooseDone)
      = Some (set_reader RReturned s)
      /\ (tick s = false ->
          step podName logger s (EvReaderSelect ChooseTick) = None))
  /\ (writer s = WReturned ->
      forallb (fun ev => negb (isWriterEvent ev)) evs = true
      /\ writer s' = WReturned /\ db s' = db s)
  /\ (reader s = RReturned ->
      forallb (fun ev => negb (isReaderEvent ev)) evs = true
      /\ reader s' = RReturned)
  /\ (forall pl stamp fault,
        writer s = WExec pl ->
        is_Some (step podName logger s (EvWriterExec stamp fault)))
  /\ (forall fault,
        reader s = RQuery ->
        is_Some (step podName logger s (EvReaderQuery fault))).
Proof.
  intros Hc Hr.
  destruct (run_no_new_insert _ _ _ Hr Hc) as [Hc' Hins].
  destruct (returned_is_final _ _ _ Hr) as [Hwf Hrf].
  split; [exact Hc'|]. split; [exact Hins|].
  split; [intros Hw rnd; simpl; rewrite Hw, Hc; reflexivity|].
  split.
  { intros Hrd. simpl. rewrite Hrd, Hc. split; [reflexivity|].
    intros Ht. rewrite Ht. reflexivity. }
  split; [exact Hwf|]. split; [exact Hrf|]. split.
  - intros pl stamp fault Hw. simpl. rewrite Hw.
    destruct (insert _ _ _ _ _) as [[t e]|e]; eauto.
  - intros fault Hrd. simpl. rewrite Hrd.
    destruct (queryRow _ _) as [[[[c p] t] pl]|e]; eauto.
Qed.

End Loops.

Lemma some_default {A} (o : option A) (d : A) :
  is_Some o -> o = Some (default d o).
Proof. intros [x ->]. reflexivity. Qed.


Lemma ids_increase_rows_stay_witness :
  exists s1 s2,
    Probe.run (H := sampleLib) "pod-a" sampleLogger (Probe.started oldTable)
      [Probe.EvWriterSelect 7; Probe.EvWriterExec "2025-03-09 13:05:59" None]
    = Some s1
    /\ Probe.run (H := sampleLib) "pod-a" sampleLogger s1
         [Probe.EvWriterWake; Probe.EvWriterSelect 42;
          Probe.EvWriterExec "2025-03-09 13:06:00" None] = Some s2
    /\ map Store.id (Probe.written s2) = [13; 14]
    /\ StronglySorted Z.lt (map Store.id (Probe.written s2))
    /\ Store.entries (Probe.db s2) = Store.entries oldTable ++ Probe.written s2.
Proof.
  pose (o1 := Probe.run (H := sampleLib) "pod-a" sampleLogger (Probe.started oldTable)
                [Probe.EvWriterSelect 7;
                 Probe.EvWriterExec "2025-03-09 13:05:59" None]).
  assert (H1 : o1 = Some (default (Probe.started oldTable) o1))
    by (apply some_default; vm_compute; eauto).
  set (s1 := default (Probe.started oldTable) o1) in H1.
  pose (o2 := Probe.run (H := sampleLib) "pod-a" sampleLogger s1
                [Probe.EvWriterWake; Probe.EvWriterSelect 42;
                 Probe.EvWriterExec "2025-03-09 13:06:00" None]).
  assert (H2 : o2 = Some (default s1 o2))
    by (apply some_default; vm_compute; eauto).
  set (s2 := default s1 o2) in H2.
  exists s1, s2. split; [exact H1|]. split; [exact H2|].
  split; [vm_compute; reflexivity|].
  destruct (ids_increase_rows_stay (H := sampleLib) "pod-a" sampleLogger oldTable
              _ _ s1 s2 H1 H2) as (Hso & _ & He & _).
  split; assumption.
Defined.

Lemma empty_table_read_error_witness :
  exists s',
    Probe.step (H := sampleLib) "pod-a" sampleLogger
      (Probe.set_reader Probe.RQuery (Probe.started Store.emptyTable))
      (Probe.EvReaderQuery None) = Some s'
    /\ Probe.reader s' = Probe.RSelect
    /\ map level (Probe.sink s') = [LevelError].
Proof.
  destruct (empty_table_read_error (H := sampleLib) "pod-a" sampleLogger
              (Probe.set_reader Probe.RQuery (Probe.started Store.emptyTable))
              eq_refl eq_refl)
    as (s' & Hstep & _ & Hsink & _ & _ & _ & _ & Hr & _).
  exists s'. split; [exact Hstep|]. split; [exact Hr|].
  rewrite Hsink. reflexivity.
Defined.

(** C9 as the specification states it fails for the read cycle: with the
    signal fired and a tick pending, the [select] of the read loop need
    not observe the signal; it may take the tick, and a query begins
    after the signal. Here this happens at two ticks in a row, after
    which the read loop has run two queries more and has still not
    returned. *)
Lemma reader_may_miss_signal :
  exists s0,
    Probe.run (H := sampleLib) "pod-a" sampleLogger
      (Probe.started Store.emptyTable) (take 5 lateSchedule) = Some s0
    /\ Probe.cancelled s0 = true /\ Probe.reader s0 = Probe.RSelect
    /\ ~ (forall c s1,
            Probe.step (H := sampleLib) "pod-a" sampleLogger s0
              (Probe.EvReaderSelect c) = Some s1 ->
            Probe.reader s1 = Probe.RReturned)
    /\ exists s2,
         Probe.run (H := sampleLib) "pod-a" sampleLogger s0
           (drop 5 lateSchedule) = Some s2
         /\ Probe.cancelled s2 = true
         /\ Probe.reader s2 = Probe.RQuery
         /\ length (Probe.sink s2) = 2%nat.
Proof.
  eexists. split; [vm_compute; reflexivity|].
  split; [reflexivity|]. split; [reflexivity|]. split.
  - intros Hall. specialize (Hall Probe.ChooseTick _ eq_refl). discriminate.
  - eexists. split; [vm_compute; reflexivity|]. repeat split.
Qed.

Lemma cancellation_witness :
  exists s s',
    Probe.run (H := sampleLib) "pod-a" sampleLogger
      (Probe.started Store.emptyTable)
      [Probe.EvWriterSelect 7; Probe.EvCancel] = Some s
    /\ Probe.run (H := sampleLib) "pod-a" sampleLogger s
         [Probe.EvWriterExec "2025-03-09 13:05:59" None; Probe.EvWriterWake;
          Probe.EvWriterSelect 42; Probe.EvReaderSelect Probe.ChooseDone] = Some s'
    /\ Probe.cancelled s' = true
    /\ length (Probe.written s') = 1%nat
    /\ Probe.writer s' = Probe.WReturned /\ Probe.reader s' = Probe.RReturned.
Proof.
  pose (o := Probe.run (H := sampleLib) "pod-a" sampleLogger
               (Probe.started Store.emptyTable)
               [Probe.EvWriterSelect 7; Probe.EvCancel]).
  assert (Hrun : o = Some (default (Probe.started Store.emptyTable) o))
    by (apply some_default; vm_compute; eauto).
  set (s := default (Probe.started Store.emptyTable) o) in Hrun.
  pose (o' := Probe.run (H := sampleLib) "pod-a" sampleLogger s
                [Probe.EvWriterExec "2025-03-09 13:05:59" None; Probe.EvWriterWake;
                 Probe.EvWriterSelect 42; Probe.EvReaderSelect Probe.ChooseDone]).
  assert (Hrun' : o' = Some (default s o'))
    by (apply some_default; vm_compute; eauto).
  set (s' := default s o') in Hrun'.
  exists s, s'. split; [exact Hrun|]. split; [exact Hrun'|].
  destruct (cancellation (H := sampleLib) "pod-a" sampleLogger _ s s' eq_refl Hrun')
    as (Hc & _).
  split; [exact Hc|]. vm_compute. repeat split.
Defined.

(* ================================================================== *)
(** * Further properties of the code *)
(* ================================================================== *)

(** ** The listen address and the start-up of [main] *)

(** X1. [prefixPort] always yields an address that begins with a colon,
    leaves such an address alone and otherwise only puts the colon in
    front; applying it twice changes nothing more. *)
Theorem prefixPort_colon (port : string) :
  String.prefix ":" (prefixPort port) = true
  /\ (String.prefix ":" port = true -> prefixPort port = port)
  /\ (String.prefix ":" port = false -> prefixPort port = ":" +:+ port)
  /\ prefixPort (prefixPort port) = prefixPort port.
Proof.
  unfold prefixPort.
  destruct (String.prefix ":" port) eqn:Hp.
  - rewrite Hp.
    repeat split; intros; first [reflexivity | discriminate | assumption].
  - assert (Hc : String.prefix ":" (":" +:+ port) = true).
    { simpl. destruct port; reflexivity. }
    rewrite Hc.
    repeat split; intros; first [reflexivity | discriminate | assumption].
Qed.

Section Startup.
Context `{GoLib}.

(** X2. A configuration that [main] accepts has a server and a share,
    never an empty listen port, machine name or interval (the defaults
    fill them in), a time-out that [time.ParseDuration] gave, and a uid
    and gid that are the machine integers [strconv.Atoi] read from UID
    and GID; the storage paths and the pod name are taken over as they
    are, and with PORT unset the server listens on ":8080". *)
Theorem accepted_config (e : Env) (cfg : Config) :
  main_init e = Ok cfg ->
  server cfg = NFS_SERVER e /\ server cfg <> ""
  /\ share cfg = NFS_SHARE e /\ share cfg <> ""
  /\ listenPort cfg <> "" /\ machineName cfg <> ""
  /\ sqliteWriteIntervalEnv cfg <> "" /\ sqliteReadIntervalEnv cfg <> ""
  /\ (PORT e = "" -> prefixPort (listenPort cfg) = ":8080")
  /\ (PORT e <> "" -> listenPort cfg = PORT e)
  /\ (MACHINE_NAME e <> "" -> machineName cfg = MACHINE_NAME e)
  /\ ParseDuration (orDefault (TIMEOUT e) "20s") = Ok (timeout cfg)
  /\ Strconv.Atoi (UID e) = Ok (uid cfg) /\ MachineInt.in_int (uid cfg)
  /\ Strconv.Atoi (GID e) = Ok (gid cfg) /\ MachineInt.in_int (gid cfg)
  /\ storagePathEnv cfg = STORAGE_PATH e
  /\ sqliteStoragePathEnv cfg = SQLITE_STORAGE_PATH e
  /\ podNameEnv cfg = POD_NAME e.
Proof.
  unfold main_init.
  destruct (String.eqb_spec (NFS_SERVER e) "") as [|Hs]; [discriminate|].
  destruct (String.eqb_spec (NFS_SHARE e) "") as [|Hsh]; [discriminate|].
  cbn [orb].
  destruct (ParseDuration _) as [d|] eqn:Hd; [|discriminate].
  destruct (Strconv.Atoi (UID e)) as [u|] eqn:Hu; [|discriminate].
  destruct (Strconv.Atoi (GID e)) as [g|] eqn:Hg; [|discriminate].
  intros [= <-]. cbn [server share listenPort machineName sqliteWriteIntervalEnv
    sqliteReadIntervalEnv timeout uid gid storagePathEnv sqliteStoragePathEnv
    podNameEnv].
  assert (Hdef : forall v d0, d0 <> "" -> orDefault v d0 <> "").
  { intros v d0 Hd0. unfold orDefault.
    destruct (String.eqb_spec v ""); assumption. }
  assert (Hkeep : forall v d0, v <> "" -> orDefault v d0 = v).
  { intros v d0 Hv. unfold orDefault.
    destruct (String.eqb_spec v ""); [contradiction | reflexivity]. }
  repeat split; try assumption; try reflexivity;
    try (apply Hdef; discriminate); try (apply Hkeep; assumption);
    try (eapply Atoi_in_int; eassumption).
  intros ->. reflexivity.
Qed.

(** X3. NFS_SERVER, NFS_SHARE, UID and GID are required: when one of
    them is unset or empty [main] stops at start-up, and when the server
    or the share is the missing one it stops with the message "Must set
    NFS_SERVER and NFS_SHARE environment variables", whatever else is
    wrong. *)
Theorem required_variables (e : Env) :
  (NFS_SERVER e = "" \/ NFS_SHARE e = "" ->
   main_init e = Err "Must set NFS_SERVER and NFS_SHARE environment variables")
  /\ (UID e = "" \/ GID e = "" -> forall cfg, main_init e <> Ok cfg).
Proof.
  split.
  - intros Hm. unfold main_init.
    destruct Hm as [-> | ->]; simpl; [reflexivity|].
    rewrite orb_true_r. reflexivity.
  - intros Hm cfg. unfold main_init.
    destruct (_ || _); [discriminate|].
    destruct (ParseDuration _); [|discriminate].
    destruct Hm as [-> | ->].
    + change (Strconv.Atoi "") with (@Err Z _ Strconv.ErrSyntax). discriminate.
    + destruct (Strconv.Atoi (UID e)); [|discriminate].
      change (Strconv.Atoi "") with (@Err Z _ Strconv.ErrSyntax). discriminate.
Qed.

End Startup.

(** ** The handlers *)

Section HandlersMore.
Context `{GoLib}.

Lemma handle_world cfg lg r W :
  let o := handle cfg lg r newWriter W in
  fs o.2 = fs W /\ nfs o.2 = nfs W /\ now o.2 = now W /\ calls o.2 = calls W
  /\ exists more, logs o.2 = logs W ++ more.
Proof.
  unfold handle. simpl.
  destruct (err r); unfold Encode;
    match goal with |- context [Marshal ?x] => destruct (Marshal x) end;
    simpl; repeat split; unfold logAt;
    try (eexists; rewrite <- ?app_assoc; reflexivity);
    exists []; now rewrite app_nil_r.
Qed.

(** X4. Every [/list] request opens one connection, with the configured
    server, time-out and identity, and after it asks for one listing, of
    the path of the request or of the root when the request has none;
    when the connection fails no listing is asked for. Nothing is
    retried and the local file system is not touched. *)
Theorem list_calls cfg req W :
  let auth := mkAuth (MachineInt.uint32 (uid cfg)) (MachineInt.uint32 (gid cfg))
                (machineName cfg) in
  let o := serve List cfg req W in
  calls o.2
  = calls W
    ++ CallNewNfsClient (timeout cfg) (server cfg) auth
       :: match nfs_connect (nfs W) (server cfg) auth with
          | Some _ => []
          | None => [CallGetFileList (listPath req)]
          end
  /\ fs o.2 = fs W.
Proof.
  intros auth o. subst o. unfold serve, handlerBody, listBody.
  fold auth. cbn [nfs did]. fold (listPath req).
  destruct (nfs_connect (nfs W) (server cfg) auth) as [e|];
    [|destruct (nfs_list (nfs W) (listPath req)) as [entries|e]];
    match goal with
    | |- context [handle ?c ?l ?r ?w ?W0] =>
        destruct (handle_world c l r W0) as (Hfs & _ & _ & Hc & _)
    end; cbv zeta in Hfs, Hc; rewrite Hfs, Hc; cbn [calls fs did];
    rewrite <- ?app_assoc; split; reflexivity.
Qed.

(** X5. The three outcomes of [/list]. A failed connection answers 500
    with the generic body and logs "error creating NFS client: " and the
    error; a failed listing answers 500 with the generic body and logs
    "Error reading dir", the quoted path and the error; a listing that
    succeeds answers 200 with the entries as the server gave them, in
    their order, and no message. *)
Theorem list_outcomes cfg req W :
  let auth := mkAuth (MachineInt.uint32 (uid cfg)) (MachineInt.uint32 (gid cfg))
                (machineName cfg) in
  let o := serve List cfg req W in
  match nfs_connect (nfs W) (server cfg) auth with
  | Some e =>
      status o.1.2 = Some 500 /\ body o.1.2 = errorBody (podNameEnv cfg)
      /\ Files o.1.1 = []
      /\ logs o.2 = logs W ++ [mkLog LevelError ("error creating NFS client: " +:+ e)
                                 (mainLogger cfg)]
  | None =>
      match nfs_list (nfs W) (listPath req) with
      | Err e =>
          status o.1.2 = Some 500 /\ body o.1.2 = errorBody (podNameEnv cfg)
          /\ Files o.1.1 = []
          /\ logs o.2
             = logs W
               ++ [mkLog LevelError
                     ("Error reading dir " +:+ Quote (listPath req) +:+ ": " +:+ e)
                     (mainLogger cfg)]
      | Ok entries =>
          status o.1.2 = Some 200 /\ Files o.1.1 = entries
          /\ Error o.1.1 = "" /\ Message o.1.1 = ""
          /\ forall js,
               marshalFiles entries = Ok js ->
               logs o.2 = logs W
               /\ body o.1.2
                  = ("{" +:+ String.concat ","
                               (stringField "pod" (podNameEnv cfg)
                                ++ match js with
                                   | [] => []
                                   | _ => [quoted "files" +:+ ":["
                                           +:+ String.concat "," js +:+ "]"]
                                   end)
                     +:+ "}") +:+ str1 newline
      end
  end.
Proof.
  intros auth o. subst o. unfold serve, handlerBody, listBody.
  fold auth. cbn [nfs did]. fold (listPath req).
  destruct (nfs_connect (nfs W) (server cfg) auth) as [e|];
    [|destruct (nfs_list (nfs W) (listPath req)) as [entries|e]].
  - unfold handle. simpl. unfold logAt. rewrite app_nil_r. repeat split.
  - unfold handle, Encode, Marshal. simpl.
    destruct (marshalFiles entries) as [js|e] eqn:Hm; simpl;
      do 4 (split; [reflexivity|]); intros js0 Hjs; [|discriminate].
    injection Hjs as <-. split; reflexivity.
  - unfold handle. simpl. unfold logAt. rewrite app_nil_r. repeat split.
Qed.

(** Case analysis of one request, for the statements that hold by
    inspection of every path through a handler and [handle]. *)
Ltac handler_case :=
  match goal with
  | |- context [if String.eqb ?a ?b then _ else _] =>
      destruct (String.eqb_spec a b)
  | |- context [match fs_fault ?f ?o ?p with _ => _ end] =>
      destruct (fs_fault f o p) eqn:?
  | |- context [match fs_files ?f !! ?p with _ => _ end] =>
      destruct (fs_files f !! p) eqn:?
  | |- context [match nfs_connect ?n ?a ?b with _ => _ end] =>
      destruct (nfs_connect n a b) eqn:?
  | |- context [match nfs_list ?n ?p with _ => _ end] =>
      destruct (nfs_list n p) eqn:?
  | |- context [match marshalFiles ?l with _ => _ end] =>
      destruct (marshalFiles l) eqn:?
  end.

Ltac handler_paths ep :=
  destruct ep;
  unfold serve, handlerBody, writeStorageBody, readStorageBody, listBody,
    WriteFile, ReadFile, handle, Encode, Marshal;
  cbn [fs nfs now calls logs did set_fs set_logs];
  repeat handler_case; simpl; repeat handler_case; simpl.

(** X6. A response that cannot be serialized: this happens only to a
    successful [/list] whose entries do not marshal. The status 200 and
    the JSON content type have gone out by then; the body stays empty,
    and the failure is logged as "can not JSON encode output". *)
Theorem encode_failure ep cfg req W r w W' e :
  serve ep cfg req W = (r, w, W') ->
  Marshal r = Err e ->
  ep = List /\ err r = None /\ Files r <> []
  /\ status w = Some 200
  /\ sentHeader "Content-Type" w = Some "application/json"
  /\ body w = ""
  /\ logs W' = logs W ++ [mkLog LevelError "can not JSON encode output"
                            (mainLogger cfg ++ [("error", AStr e)])].
Proof.
  revert r w W' e. handler_paths ep; intros r w W' encErr Hs Hm;
    inversion Hs; subst; clear Hs; unfold Marshal in Hm; simpl in Hm;
    try discriminate;
    repeat match goal with
           | Hx : marshalFiles _ = _ |- _ => rewrite Hx in Hm
           end; try discriminate.
  all: injection Hm as <-; unfold logAt; simpl;
    repeat split; try reflexivity;
    intros Hnil; rewrite Hnil in *; discriminate.
Qed.

(** X7. What a request leaves alone. No handler changes the file server
    or the clock; only [/write-storage] changes the local file system,
    and it changes nothing but the content of the configured file; each
    endpoint makes only its own kind of call, at most two of them, and a
    request adds at most one record to the log. *)
Theorem handlers_frame ep cfg req W :
  let o := serve ep cfg req W in
  nfs o.2 = nfs W /\ now o.2 = now W
  /\ fs_fault (fs o.2) = fs_fault (fs W)
  /\ (forall p, p <> storagePathEnv cfg ->
      fs_files (fs o.2) !! p = fs_files (fs W) !! p)
  /\ (ep <> WriteStorage -> fs o.2 = fs W)
  /\ exists cs more,
       calls o.2 = calls W ++ cs
       /\ forallb (callOf ep cfg) cs = true /\ (length cs <= 2)%nat
       /\ logs o.2 = logs W ++ more /\ (length more <= 1)%nat.
Proof.
  intros o. subst o. handler_paths ep; unfold logAt;
    (split; [reflexivity|]); (split; [reflexivity|]); (split; [reflexivity|]);
    (split; [intros p Hp; try reflexivity; try (now rewrite lookup_insert_ne)|]);
    (split; [intros Hne; try reflexivity; try congruence|]);
    rewrite <- ?app_assoc; cbn [app];
    try (exists [], []; rewrite !app_nil_r; repeat split; simpl; lia);
    try (eexists [], [_]; rewrite ?app_nil_r; repeat split; simpl; lia);
    try (eexists [_], []; rewrite ?app_nil_r; repeat split;
         simpl; rewrite ?String.eqb_refl; (reflexivity || lia));
    try (eexists [_], [_]; repeat split;
         simpl; rewrite ?String.eqb_refl; (reflexivity || lia));
    try (eexists [_; _], []; rewrite ?app_nil_r; repeat split;
         simpl; (reflexivity || lia));
    try (eexists [_; _], [_]; repeat split; simpl; (reflexivity || lia)).
Qed.

Lemma serve_read_fs cfg req (W1 W2 : World) :
  fs W1 = fs W2 ->
  (serve ReadStorage cfg req W1).1 = (serve ReadStorage cfg req W2).1.
Proof.
  intros Hfs. unfold serve, handlerBody, readStorageBody, ReadFile.
  cbn [fs did]. rewrite Hfs.
  destruct (String.eqb _ ""); [|destruct (fs_fault _ _ _);
    [|destruct (fs_files _ !! _)]];
    unfold handle, Encode, Marshal; simpl; reflexivity.
Qed.

Lemma serve_fs_kept ep cfg req W :
  ep <> WriteStorage -> fs (serve ep cfg req W).2 = fs W.
Proof.
  intros Hne. revert Hne. handler_paths ep; intros Hne;
    try reflexivity; congruence.
Qed.

Lemma serveAll_fs_kept cfg rs W :
  Forall (fun x => x.1.1 <> WriteStorage) rs -> fs (serveAll cfg rs W) = fs W.
Proof.
  intros Hrs. revert W. induction Hrs as [|[[ep req] t] rs Hx _ IH]; intros W;
    simpl; [reflexivity|].
  rewrite IH. now rewrite serve_fs_kept.
Qed.

(** X8. Only [/write-storage] changes what [/read-storage] answers:
    after any sequence of requests to the other endpoints, at whatever
    times, a read gets the same envelope and the same response as
    before them; the query of the request makes no difference. *)
Theorem read_is_stable cfg rs req req' W :
  Forall (fun x => x.1.1 <> WriteStorage) rs ->
  (serve ReadStorage cfg req' (serveAll cfg rs W)).1
  = (serve ReadStorage cfg req W).1.
Proof.
  intros Hrs.
  rewrite (serve_read_fs cfg req' (serveAll cfg rs W) W)
    by (now apply serveAll_fs_kept).
  unfold serve, handlerBody. reflexivity.
Qed.



End HandlersMore.

(** ** The store and the probe loops *)

Lemma maxId_nonneg (l : list Store.Entry) : 0 <= Store.maxId l.
Proof. induction l as [|x l IH]; simpl; lia. Qed.


Section LoopsMore.
Context `{GoLib}.
Variable podName : string.
Variable logger : Logger.

Import Store Probe.


(** One step, counted. *)
Lemma step_counts (s s' : State) (ev : Event) :
  step podName logger s ev = Some s' ->
  (exists new,
      sink s' = sink s ++ new /\ Forall (isProbeRecord logger) new
      /\ (length new + length (written s')
          = length (written s) + Nat.b2n (isExec ev) + Nat.b2n (isQuery ev))%nat)
  /\ (Nat.b2n (isQuery ev) + inQuery s' = Nat.b2n (isTake ev) + inQuery s)%nat
  /\ (Nat.b2n (isTake ev) + pendingTick s' <= Nat.b2n (isTick ev) + pendingTick s)%nat
  /\ (Nat.b2n (isExec ev) + armed s' <= Nat.b2n (isWake ev) + armed s)%nat.
Proof.
  intros Hs.
  assert (Hrec : forall lv m args,
             (lv = LevelError /\ (m = "WRITE error" \/ m = "read error"))
             \/ (lv = LevelInfo /\ m = "successful read") ->
             Forall (isProbeRecord logger) [mkLog lv m (logger ++ args)]).
  { intros lv m args Hk. constructor; [|constructor].
    split; [eexists; reflexivity | exact Hk]. }
  destruct ev; simpl in Hs; repeat case_match; simplify_eq;
    unfold inQuery, pendingTick, armed, logAt, successfulRead; simpl;
    repeat match goal with
           | Hx : _ = ?rhs |- context [match ?lhs with _ => _ end] =>
               match type of Hx with lhs = _ => rewrite Hx end
           end; simpl;
    (split; [|repeat split; try lia; destruct (tick s); simpl; lia]);
    first [ exists []; rewrite app_nil_r; split; [reflexivity|];
            split; [constructor|]; simpl; rewrite ?length_app; simpl; lia
          | eexists [_]; split; [reflexivity|];
            split; [apply Hrec; tauto|]; simpl; rewrite ?length_app; simpl; lia ].
Qed.

Lemma run_counts (evs : list Event) (s s' : State) :
  run podName logger s evs = Some s' ->
  (exists new,
      sink s' = sink s ++ new /\ Forall (isProbeRecord logger) new
      /\ (length new + length (written s')
          = length (written s) + countIf isExec evs + countIf isQuery evs)%nat)
  /\ (countIf isQuery evs + inQuery s' = countIf isTake evs + inQuery s)%nat
  /\ (countIf isTake evs + pendingTick s' <= countIf isTick evs + pendingTick s)%nat
  /\ (countIf isExec evs + armed s' <= countIf isWake evs + armed s)%nat.
Proof.
  revert s. induction evs as [|ev evs IH]; intros s; simpl.
  - intros [= <-]. split; [|lia]. exists []. rewrite app_nil_r.
    split; [reflexivity|]. split; [constructor|]. simpl. lia.
  - destruct (step podName logger s ev) as [s1|] eqn:Hs; [|discriminate].
    intros Hr. apply IH in Hr as ((new2 & Hk2 & Hf2 & Hl2) & Hq2 & Ht2 & Hw2).
    apply step_counts in Hs as ((new1 & Hk1 & Hf1 & Hl1) & Hq1 & Ht1 & Hw1).
    unfold Nat.b2n in *.
    split; [|lia].
    exists (new1 ++ new2). rewrite Hk2, Hk1, <- app_assoc.
    split; [reflexivity|]. split; [now apply Forall_app|].
    rewrite length_app. lia.
Qed.

(** X11. Nothing the loops do goes unrecorded, and they log nothing
    else: along any run the log grows by records of the three kinds
    "WRITE error", "read error" and "successful read" only, each with
    the attributes of the logger, and every INSERT that completes adds
    either a row or a record, every query that completes exactly one
    record. *)
Theorem probe_log_accounting (evs : list Event) (s s' : State) :
  run podName logger s evs = Some s' ->
  exists new,
    sink s' = sink s ++ new
    /\ Forall (isProbeRecord logger) new
    /\ (length new + length (written s')
        = length (written s) + countIf isExec evs + countIf isQuery evs)%nat.
Proof. intros Hr. exact (proj1 (run_counts evs s s' Hr)). Qed.

(** X12. The read loop queries only on ticks, and ticks do not pile
    up: once started, every query that completed or is in flight was
    begun by taking a tick, and the ticks taken, with the one that may
    be waiting, never outnumber the times the ticker has fired. So no
    query begins before the first tick, and a slow query makes the loop
    skip ticks rather than catch up. *)
Theorem reads_follow_ticks (t0 : Table) (evs : list Event) (s : State) :
  run podName logger (started t0) evs = Some s ->
  (countIf isQuery evs + inQuery s = countIf isTake evs)%nat
  /\ (countIf isTake evs + pendingTick s <= countIf isTick evs)%nat.
Proof.
  intros Hr. destruct (run_counts evs _ _ Hr) as (_ & Hq & Ht & _).
  change (inQuery (started t0)) with 0%nat in Hq.
  change (pendingTick (started t0)) with 0%nat in Ht. lia.
Qed.

(** X13. The write loop sleeps between its inserts: once started, the
    INSERTs completed never exceed the sleeps completed by more than
    one, the insert made at once at start-up, whether the inserts
    succeed or fail. *)
Theorem inserts_follow_sleeps (t0 : Table) (evs : list Event) (s : State) :
  run podName logger (started t0) evs = Some s ->
  (countIf isExec evs + armed s <= countIf isWake evs + 1)%nat.
Proof.
  intros Hr. destruct (run_counts evs _ _ Hr) as (_ & _ & _ & Hw).
  change (armed (started t0)) with 1%nat in Hw. lia.
Qed.

Lemma sorted_NoDup (l : list Z) : StronglySorted Z.lt l -> List.NoDup l.
Proof.
  induction 1 as [|a l Hs IH Ha]; constructor; [|exact IH].
  intros Hin. rewrite List.Forall_forall in Ha. specialize (Ha a Hin). lia.
Qed.

(** What a step does to the row ids. *)
Lemma step_ids (s s' : State) (ev : Event) :
  step podName logger s ev = Some s' ->
  (db s' = db s /\ written s' = written s)
  \/ (exists e,
        written s' = written s ++ [e]
        /\ sqlite_sequence (db s') = id e
        /\ 1 <= id e <= maxRowid
        /\ id e = nextId (db s)).
Proof.
  intros Hs. destruct ev; simpl in Hs; repeat case_match; simplify_eq;
    try (left; split; reflexivity).
  right. unfold insert in *. repeat case_match; simplify_eq.
  eexists. simpl. split; [reflexivity|]. split; [reflexivity|].
  split; [|reflexivity]. simpl.
  match goal with Hx : (maxRowid <? _) = false |- _ =>
    apply Z.ltb_ge in Hx end.
  pose proof (maxId_nonneg (entries (db s))). unfold nextId in *. lia.
Qed.

Lemma run_ids (evs : list Event) (s s' : State) :
  run podName logger s evs = Some s' ->
  (forall e, In e (written s) -> 1 <= id e <= maxRowid) ->
  (forall e, In e (written s') -> 1 <= id e <= maxRowid)
  /\ ((written s' = written s /\ db s' = db s)
      \/ exists e, last (written s') = Some e /\ sqlite_sequence (db s') = id e).
Proof.
  revert s. induction evs as [|ev evs IH]; intros s; simpl.
  - intros [= <-] Hw. split; [exact Hw|]. left. split; reflexivity.
  - destruct (step podName logger s ev) as [s1|] eqn:Hs; [|discriminate].
    intros Hr Hw.
    apply step_ids in Hs as [[Hd Hwr] | (e & Hwr & Hseq & Hrange & _)].
    + rewrite <- Hwr in Hw. destruct (IH _ Hr Hw) as [Hall Hcase].
      split; [exact Hall|]. rewrite Hwr, Hd in Hcase. exact Hcase.
    + assert (Hw1 : forall x, In x (written s1) -> 1 <= id x <= maxRowid).
      { intros x Hx. rewrite Hwr in Hx.
        apply in_app_or in Hx as [Hx | [<- | []]]; [now apply Hw | exact Hrange]. }
      destruct (IH _ Hr Hw1) as [Hall Hcase]. split; [exact Hall|].
      right. destruct Hcase as [[Hsame Hdb] | Hlast]; [|exact Hlast].
      exists e. rewrite Hsame, Hdb, Hwr. split; [apply last_snoc | exact Hseq].
Qed.

(** X14. Row ids stay unique and within the range of SQLite: if the ids
    found at start-up are pairwise different, so are the ids of the
    table after any run; every row the write loop inserts has an id
    between 1 and 9223372036854775807; and after the first insertion
    the counter of AUTOINCREMENT is the id of the last row inserted. *)
Theorem ids_unique_in_range (t0 : Table) (evs : list Event) (s : State) :
  run podName logger (started t0) evs = Some s ->
  List.NoDup (map id (entries t0)) ->
  List.NoDup (map id (entries (db s)))
  /\ (forall e, In e (written s) -> 1 <= id e <= maxRowid)
  /\ match last (written s) with
     | Some e => sqlite_sequence (db s) = id e
     | None => db s = t0
     end.
Proof.
  intros Hr Hnd.
  destruct (run_rows podName logger evs _ _ Hr)
    as (more & He & Hw & Hso & Hlt & _).
  destruct (run_ids evs _ _ Hr) as [Hrange Hseq]; [intros e []|].
  simpl in He, Hw, Hlt, Hseq. subst more.
  split; [|split; [exact Hrange|]].
  - rewrite He, map_app. apply NoDup_ListNoDup, NoDup_app.
    split; [now apply NoDup_ListNoDup|]. split; [|apply NoDup_ListNoDup, sorted_NoDup, Hso].
    intros i Hi Hi'. apply list_elem_of_In in Hi, Hi'.
    apply in_map_iff in Hi as (x & <- & Hx).
    apply in_map_iff in Hi' as (e & Heq & Hin).
    specialize (Hlt x e Hx Hin). lia.
  - destruct Hseq as [[Hsame Hdb] | (e & Hl & Hs)].
    + rewrite Hsame. simpl. exact Hdb.
    + rewrite Hl. exact Hs.
Qed.


Lemma step_full (s s' : State) (ev : Event) :
  maxRowid < nextId (db s) ->
  step podName logger s ev = Some s' ->
  db s' = db s /\ written s' = written s.
Proof.
  intros Hfull Hs. destruct (step_ids _ _ _ Hs) as [Hsame | (e & _ & _ & Hr & Hid)];
    [exact Hsame | lia].
Qed.

(** X16. A table that has used up the row ids takes no more rows: when
    the largest id ever handed out is 9223372036854775807, every INSERT
    of the write loop fails, the table and its counter stay as they
    were, and each attempt is logged; the loops go on. *)
Theorem full_table_takes_no_rows (t0 : Table) (evs : list Event) (s : State) :
  maxRowid <= Z.max (sqlite_sequence t0) (maxId (entries t0)) ->
  run podName logger (started t0) evs = Some s ->
  db s = t0 /\ written s = []
  /\ length (sink s) = (countIf isExec evs + countIf isQuery evs)%nat.
Proof.
  intros Hfull Hr.
  assert (Hinv : forall evs0 s0 s1,
             db s0 = t0 -> run podName logger s0 evs0 = Some s1 ->
             db s1 = t0 /\ written s1 = written s0).
  { induction evs0 as [|ev evs0 IH]; intros s0 s1 Hd; simpl.
    - intros [= <-]. split; [exact Hd | reflexivity].
    - destruct (step podName logger s0 ev) as [s2|] eqn:Hs; [|discriminate].
      intros Hr0. apply step_full in Hs as [Hd2 Hw2];
        [|rewrite Hd; unfold nextId; lia].
      destruct (IH s2 s1 (eq_trans Hd2 Hd) Hr0) as [Hd1 Hw1].
      split; [exact Hd1 | congruence]. }
  destruct (Hinv evs (started t0) s eq_refl Hr) as [Hd Hw]. simpl in Hw.
  split; [exact Hd|]. split; [exact Hw|].
  destruct (run_counts evs _ _ Hr) as ((new & Hk & _ & Hl) & _).
  rewrite Hw in Hl. simpl in Hk, Hl. rewrite Hk. lia.
Qed.

Lemma sorted_app (l1 l2 : list Z) :
  StronglySorted Z.lt l1 -> StronglySorted Z.lt l2 ->
  (forall a b, In a l1 -> In b l2 -> a < b) ->
  StronglySorted Z.lt (l1 ++ l2).
Proof.
  intros Hso1 Hso2. induction Hso1 as [|a l1 Hs IH Ha]; intros Hab; simpl.
  - exact Hso2.
  - constructor.
    + apply IH. intros a0 b Ha0 Hb. apply Hab; [now right | exact Hb].
    + apply Forall_app. split; [exact Ha|].
      apply List.Forall_forall. intros b Hb. apply Hab; [now left | exact Hb].
Qed.

(** X17. Rows survive a restart. When the service is set up again on
    the database file a former run has left, the table starts with all
    rows of that run, the new run appends to them, and every id it hands
    out is above every id of the former run. *)
Theorem rows_survive_restart (file : option Table) (rd wr rd2 wr2 : string)
  (st1 s1 st2 s2 : State) (evs1 evs2 : list Event) :
  setupSqlite file None None rd wr = Ok st1 ->
  run podName logger st1 evs1 = Some s1 ->
  setupSqlite (Some (db s1)) None None rd2 wr2 = Ok st2 ->
  run podName logger st2 evs2 = Some s2 ->
  entries (db st2) = entries (db s1)
  /\ entries (db s2) = entries (db s1) ++ written s2
  /\ (forall x e, In x (entries (db s1)) -> In e (written s2) -> id x < id e)
  /\ StronglySorted Z.lt (map id (written s1 ++ written s2)).
Proof.
  intros Hset1 Hr1 Hset2 Hr2.
  apply setupSqlite_started in Hset1 as [-> _].
  apply setupSqlite_started in Hset2 as [-> _]. simpl in Hr2 |- *.
  destruct (run_rows podName logger _ _ _ Hr1) as (m1 & He1 & Hw1 & Hso1 & Hlt1 & _).
  destruct (run_rows podName logger _ _ _ Hr2) as (m2 & He2 & Hw2 & Hso2 & Hlt2 & _).
  simpl in He1, Hw1, Hlt1, He2, Hw2, Hlt2. subst m1 m2.
  split; [reflexivity|]. split; [exact He2|]. split; [exact Hlt2|].
  rewrite map_app. clear Hr1 Hr2 He2.
  assert (Hab : forall a b, In a (map id (written s1)) -> In b (map id (written s2)) ->
                            a < b).
  { intros a b Ha Hb. apply in_map_iff in Ha as (x & <- & Hx).
    apply in_map_iff in Hb as (e & <- & Hin).
    apply Hlt2; [|exact Hin]. rewrite He1. apply in_or_app. now right. }
  now apply sorted_app.
Qed.

End LoopsMore.

(** ** The life of the process *)

Section Life.
Variable cfg : Config.
Variable sqlite : bool.

Import Lifecycle.

Lemma snoc_split {A} (l pre post : list A) (x r : A) :
  l ++ [x] = pre ++ r :: post ->
  (post = [] /\ pre = l /\ r = x)
  \/ (exists post', post = post' ++ [x] /\ l = pre ++ r :: post').
Proof.
  destruct post as [|p post _] using rev_ind.
  - intros Heq. left.
    apply app_inj_tail in Heq as [-> ->]. repeat split; reflexivity.
  - intros Heq. right. exists post.
    rewrite app_comm_cons, app_assoc in Heq.
    apply app_inj_tail in Heq as [-> ->]. split; reflexivity.
Qed.

Lemma before_snoc (P Q : LogRecord -> Prop) (l : list LogRecord) (x : LogRecord) :
  before P Q l -> (Q x -> exists y, In y l /\ P y) -> before P Q (l ++ [x]).
Proof.
  intros Hb Hx pre r post Heq Hq.
  apply snoc_split in Heq as [(-> & -> & ->) | (post' & -> & ->)].
  - now apply Hx.
  - now apply (Hb pre r post').
Qed.

Lemma has_snoc (m : string) (l : list LogRecord) (x : LogRecord) :
  has m l \/ msg x = m -> has m (l ++ [x]).
Proof.
  intros [(r & Hin & Hm) | Hm].
  - exists r. split; [apply in_or_app; now left | exact Hm].
  - exists x. split; [apply in_or_app; right; now left | exact Hm].
Qed.

Lemma inv_running : Inv running.
Proof.
  constructor; simpl; try congruence; try tauto;
    try (intros [|]; congruence);
    intros pre r post Heq; destruct pre; discriminate.
Qed.

Lemma before_same (P Q : LogRecord -> Prop) (l : list LogRecord) (x : LogRecord) :
  before P Q l -> ~ Q x -> before P Q (l ++ [x]).
Proof. intros Hb Hn. apply before_snoc; [exact Hb | tauto]. Qed.

Ltac inv_premises :=
  repeat match goal with
         | Hx : mainPC ?s = _ |- _ => rewrite Hx in *; clear Hx
         | Hx : sigPC ?s = _ |- _ => rewrite Hx in *; clear Hx
         | Hx : srvPC ?s = _ |- _ => rewrite Hx in *; clear Hx
         | Hx : cancelled ?s = _ |- _ => rewrite Hx in *; clear Hx
         end;
  repeat match goal with
         | Hx : ?a <> ?b -> _ |- _ => specialize (Hx ltac:(discriminate))
         | Hx : ?a = ?a -> _ |- _ => specialize (Hx eq_refl)
         | Hx : ?a = ?a \/ _ -> _ |- _ => specialize (Hx (or_introl eq_refl))
         | Hx : _ \/ ?a = ?a -> _ |- _ => specialize (Hx (or_intror eq_refl))
         end.

Ltac inv_close :=
  intros;
  repeat match goal with
         | Hx : ?P -> _, Hp : ?P |- _ => specialize (Hx Hp)
         end;
  first
    [ assumption
    | reflexivity
    | congruence
    | tauto
    | match goal with Hx : _ \/ _ |- _ => destruct Hx; congruence end
    | apply has_snoc; first [right; reflexivity | left; assumption]
    | match goal with
      | Hx : exists r, In r ?l /\ isTrigger r |- exists r, In r (?l ++ _) /\ _ =>
          destruct Hx as (r0 & Hin0 & Ht0); exists r0;
          split; [apply in_or_app; now left | exact Ht0]
      | Hx : has _ ?l |- exists r, In r ?l /\ isTrigger r =>
          destruct Hx as (r0 & Hin0 & Ht0); exists r0;
          split; [exact Hin0 | unfold isTrigger; tauto]
      end
    | eexists; split; [apply in_or_app; right; now left|];
      unfold isTrigger; simpl; tauto
    | apply before_snoc; [assumption|]; simpl; intros Hq;
      first [ discriminate Hq
            | unfold isTrigger in Hq; simpl in Hq; destruct Hq; discriminate
            | assumption ] ].

Lemma step_inv (s s' : State) (ev : Event) :
  Inv s -> step cfg sqlite s ev = Some s' -> Inv s'.
Proof.
  intros [Hsig Hsrv Hc Hm Hl Hel Hex Ho1 Ho2 Ho3]. unfold step.
  destruct (exit s) eqn:Hexit; [discriminate|].
  destruct ev as [| | |[e|]| | | |[e|]| |[e|]]; intros Hs;
    repeat case_match; simplify_eq;
    constructor; simpl in *; inv_premises; inv_close.
Qed.

Lemma run_inv (evs : list Event) (s s' : State) :
  Inv s -> run cfg sqlite s evs = Some s' -> Inv s'.
Proof.
  revert s. induction evs as [|ev evs IH]; intros s Hi; simpl.
  - intros [= <-]. exact Hi.
  - destruct (step cfg sqlite s ev) as [s1|] eqn:Hs; [|discriminate].
    apply IH. exact (step_inv _ _ _ Hi Hs).
Qed.

(** X18. [main] shuts the server down only for a cause: however the
    goroutines interleave, [main] is past its wait only when the context
    has been cancelled, the context is cancelled only after a
    termination signal or a failure of the HTTP server has been logged,
    and "shutting down HTTP server" never appears in the log before one
    of these two records. *)
Theorem shutdown_needs_trigger (evs : list Event) (s : State) :
  run cfg sqlite running evs = Some s ->
  (mainPC s <> MWait -> cancelled s = true)
  /\ (cancelled s = true -> exists r, In r (sink s) /\ isTrigger r)
  /\ before isTrigger (fun r => msg r = "shutting down HTTP server") (sink s).
Proof.
  intros Hr. destruct (run_inv _ _ _ inv_running Hr).
  repeat split; assumption.
Qed.


(** X20. The shutdown does not wait for anyone: from every state the
    process can reach with the context cancelled, the steps of [main]
    alone lead to its return with status 0, wherever the signal
    goroutine, the server goroutine and the probe loops stand. *)
Theorem shutdown_completes (evs : list Event) (s : State) :
  run cfg sqlite running evs = Some s ->
  cancelled s = true ->
  exists s', run cfg sqlite s (finish s) = Some s' /\ exit s' = Some 0
             /\ sigPC s' = sigPC s /\ srvPC s' = srvPC s.
Proof.
  intros Hr Hc.
  destruct (run_inv _ _ _ inv_running Hr) as [_ _ _ _ _ _ Hexit _ _ _].
  destruct s as [c sg sv m l ex]. simpl in *. subst c.
  unfold finish. simpl.
  destruct m; subst ex; simpl; eexists; (split; [reflexivity|]);
    repeat split.
Qed.

End Life.

(** ** The earlier versions *)

Section Versions.
Context `{GoLib}.


(** X22. The first version's [/list] against the current one. When the
    listing fails the first version sends the text of the error to the
    client, as plain text with status 500, where the current version
    sends the generic envelope; when it succeeds the first version
    sends the bare JSON array, [[]] for an empty directory; and it lists
    ["."] where the current version lists ["/"] when the request names
    no path. *)
Theorem first_list_handler (getFileList : string -> Result (list FileInfo) error)
  (cfg : Config) (req : Request) (W : World) :
  let w := Earlier.listHandler getFileList req newWriter in
  (Query_Get "path" (query req) = "" ->
   Earlier.listPath req = "." /\ listPath req = "/")
  /\ (Query_Get "path" (query req) <> "" -> Earlier.listPath req = listPath req)
  /\ match getFileList (Earlier.listPath req) with
     | Err e =>
         status w = Some 500
         /\ sentHeader "Content-Type" w = Some "text/plain; charset=utf-8"
         /\ sentHeader "X-Content-Type-Options" w = Some "nosniff"
         /\ body w = ("Error reading dir " +:+ Quote (Earlier.listPath req) +:+ ": "
                      +:+ e) +:+ str1 newline
     | Ok entries =>
         status w = Some 200
         /\ sentHeader "Content-Type" w = Some "application/json"
         /\ body w = match marshalFiles entries with
                     | Ok js => ("[" +:+ String.concat "," js +:+ "]") +:+ str1 newline
                     | Err _ => ""
                     end
         /\ (entries = [] -> body w = "[]" +:+ str1 newline)
     end
  /\ (forall e,
        nfs_connect (nfs W) (server cfg)
          (mkAuth (MachineInt.uint32 (uid cfg)) (MachineInt.uint32 (gid cfg))
             (machineName cfg)) = None ->
        nfs_list (nfs W) (listPath req) = Err e ->
        body (serve List cfg req W).1.2 = errorBody (podNameEnv cfg)).
Proof.
  intros w. subst w. unfold Earlier.listHandler, Earlier.listPath, listPath.
  split; [intros ->; split; reflexivity|]. split.
  { intros Hne. destruct (String.eqb_spec (Query_Get "path" (query req)) "");
      [contradiction | reflexivity]. }
  split.
  - destruct (getFileList _) as [entries|e]; simpl.
    + destruct (marshalFiles entries) as [js|e] eqn:Hm; simpl;
        repeat split; try reflexivity; intros ->; simpl in Hm;
        [injection Hm as <-; reflexivity | discriminate].
    + repeat split.
  - intros e Hc Hl. unfold serve, handlerBody, listBody. cbn [nfs did].
    rewrite Hc, Hl. unfold handle. simpl. reflexivity.
Qed.

End Versions.

(** ** [strconv.Atoi] reads decimal numerals *)

Ltac zeuclid := Z.to_euclidean_division_equations; lia.

Lemma byte_val_range (c : ascii) : 0 <= byte_val c < 256.
Proof.
  unfold byte_val. pose proof (nat_ascii_bounded c). lia.
Qed.

Lemma digit_wrap (c : ascii) :
  (9 <? (byte_val c - 48) mod 256) = negb (isDigit c)
  /\ (isDigit c = true ->
      (byte_val c - 48) mod 256 = byte_val c - 48 /\ 0 <= byte_val c - 48 <= 9).
Proof.
  pose proof (byte_val_range c) as Hb. unfold isDigit.
  destruct (Z.leb_spec 48 (byte_val c)); destruct (Z.leb_spec (byte_val c) 57);
    simpl.
  - rewrite Z.mod_small by lia. split; [apply Z.ltb_ge; lia | intros _; lia].
  - split; [apply Z.ltb_lt; zeuclid | discriminate].
  - split; [apply Z.ltb_lt; zeuclid | discriminate].
  - split; [apply Z.ltb_lt; zeuclid | discriminate].
Qed.

Lemma wrapInt_id (z : Z) : MachineInt.in_int z -> MachineInt.wrapInt z = z.
Proof.
  unfold MachineInt.in_int, MachineInt.wrapInt, MachineInt.minInt,
    MachineInt.maxInt, MachineInt.intSize.
  change (2 ^ (64 - 1)) with 9223372036854775808.
  change (2 ^ 64) with 18446744073709551616. intros Hz.
  rewrite Z.mod_small by lia. lia.
Qed.

Lemma in_int_bounds (z : Z) :
  MachineInt.in_int z <-> -9223372036854775808 <= z <= 9223372036854775807.
Proof. reflexivity. Qed.

Lemma decimalAcc_ge (s : string) (n : Z) :
  allDigits s = true -> 0 <= n -> n <= decimalAcc s n.
Proof.
  revert n. induction s as [|c s IH]; intros n Hd Hn; simpl in *; [lia|].
  apply andb_prop in Hd as [Hc Hs].
  destruct (digit_wrap c) as [_ Hw]. destruct (Hw Hc) as [_ Hr].
  specialize (IH (n * 10 + (byte_val c - 48)) Hs ltac:(lia)). lia.
Qed.

(** The loop of the fast path, on at most 18 digits. *)
Lemma atoiLoop_spec (s : string) (n : Z) (k : nat) :
  0 <= n < 10 ^ Z.of_nat k -> (k + String.length s <= 18)%nat ->
  Strconv.atoiLoop s n
  = (if allDigits s then Ok (decimalAcc s n) else Err Strconv.ErrSyntax)
  /\ (allDigits s = true -> 0 <= decimalAcc s n < 10 ^ 18).
Proof.
  revert n k. induction s as [|c s IH]; intros n k Hn Hk; simpl in *.
  - split; [reflexivity|]. intros _.
    assert (10 ^ Z.of_nat k <= 10 ^ 18) by (apply Z.pow_le_mono_r; lia). lia.
  - destruct (digit_wrap c) as [Hw1 Hw2]. rewrite Hw1.
    destruct (isDigit c) eqn:Hc; simpl; [|split; [reflexivity | discriminate]].
    destruct (Hw2 eq_refl) as [-> Hr].
    assert (Hn1 : 0 <= n * 10 + (byte_val c - 48) < 10 ^ Z.of_nat (S k)).
    { rewrite Nat2Z.inj_succ, Z.pow_succ_r by lia. lia. }
    assert (Hpow : 10 ^ Z.of_nat (S k) <= 10 ^ 18)
      by (apply Z.pow_le_mono_r; lia).
    rewrite wrapInt_id by (apply in_int_bounds; change (10 ^ 18) with
      1000000000000000000 in Hpow; lia).
    apply (IH _ (S k) Hn1). lia.
Qed.

(** The loop of [ParseUint]: it succeeds exactly on digits whose value
    fits 64 bits. *)
Lemma parseUintLoop_spec (s : string) (n v : Z) :
  0 <= n <= 18446744073709551615 ->
  Strconv.parseUintLoop s n = Ok v
  <-> allDigits s = true /\ decimalAcc s n = v /\ v <= 18446744073709551615.
Proof.
  revert n. induction s as [|c s IH]; intros n Hn; simpl.
  - split; [intros [= <-]; repeat split; lia | intros (_ & <- & _); reflexivity].
  - fold (isDigit c). destruct (isDigit c) eqn:Hc; simpl;
      [|split; [discriminate | intros (Hd & _); discriminate]].
    destruct (digit_wrap c) as [_ Hw]. destruct (Hw Hc) as [_ Hr].
    unfold MachineInt.wrapUint64, MachineInt.intSize.
    change ((2 ^ 64 - 1) / 10 + 1) with 1844674407370955162.
    change (2 ^ 64 - 1) with 18446744073709551615.
    change (2 ^ 64) with 18446744073709551616.
    destruct (Z.leb_spec 1844674407370955162 n) as [Hcut | Hcut].
    { split; [discriminate|]. intros (Hd & Hv & Hmax).
      pose proof (decimalAcc_ge s (n * 10 + (byte_val c - 48)) Hd ltac:(lia)). lia. }
    rewrite (Z.mod_small (n * 10)) by lia.
    destruct (Z_lt_le_dec (n * 10 + (byte_val c - 48)) 18446744073709551616)
      as [Hfit | Hover].
    + rewrite Z.mod_small by lia.
      replace (n * 10 + (byte_val c - 48) <? n * 10) with false
        by (symmetry; apply Z.ltb_ge; lia).
      replace (18446744073709551615 <? n * 10 + (byte_val c - 48)) with false
        by (symmetry; apply Z.ltb_ge; lia).
      simpl. apply IH. lia.
    + replace ((n * 10 + (byte_val c - 48)) mod 18446744073709551616)
        with (n * 10 + (byte_val c - 48) - 18446744073709551616) by zeuclid.
      replace (n * 10 + (byte_val c - 48) - 18446744073709551616 <? n * 10)
        with true by (symmetry; apply Z.ltb_lt; lia).
      simpl. split; [discriminate|]. intros (Hd & Hv & Hmax).
      pose proof (decimalAcc_ge s (n * 10 + (byte_val c - 48)) Hd ltac:(lia)). lia.
Qed.

Lemma splitSign_cons (c0 : ascii) (rest : string) :
  splitSign (String c0 rest)
  = (Ascii.eqb c0 "-",
     if Ascii.eqb c0 "+" || Ascii.eqb c0 "-" then rest else String c0 rest).
Proof.
  unfold splitSign. destruct (Ascii.eqb c0 "-"), (Ascii.eqb c0 "+"); reflexivity.
Qed.

Lemma eqb_empty_length (s : string) :
  String.eqb s "" = (String.length s <? 1)%nat.
Proof. destruct s; reflexivity. Qed.

(** [ParseInt(s, 10, 0)] succeeds exactly on the numerals whose value is
    a machine integer, and gives that value. *)
Lemma ParseInt_spec (s : string) (z : Z) :
  Strconv.ParseInt s = Ok z <-> numeralValue s = Some z /\ MachineInt.in_int z.
Proof.
  destruct s as [|c0 rest]; [split; [discriminate | intros [Hx _]; discriminate]|].
  unfold Strconv.ParseInt, numeralValue. rewrite splitSign_cons.
  set (neg := Ascii.eqb c0 "-").
  set (s1 := if Ascii.eqb c0 "+" || neg then rest else String c0 rest).
  unfold Strconv.ParseUint.
  destruct s1 as [|c1 r1] eqn:Hs1.
  { simpl. split; [discriminate | intros [Hx _]; discriminate]. }
  rewrite <- Hs1. replace (negb (String.eqb s1 "")) with true
    by (rewrite Hs1; reflexivity).
  cbn [andb].
  unfold MachineInt.intSize.
  change (2 ^ (64 - 1)) with 9223372036854775808.
  change (2 ^ 64 - 1) with 18446744073709551615.
  pose proof (fun v => parseUintLoop_spec s1 0 v ltac:(lia)) as Hspec.
  rewrite in_int_bounds.
  destruct (Strconv.parseUintLoop s1 0) as [un|[|]] eqn:Hloop.
  - destruct (proj1 (Hspec un) eq_refl) as (Hd & Hv & Hmax).
    pose proof (decimalAcc_ge s1 0 Hd ltac:(lia)) as Hge.
    rewrite Hd, Hv.
    destruct neg; cbn [negb andb].
    + destruct (Z.ltb_spec 9223372036854775808 un) as [Hlt | Hle].
      * split; [discriminate | intros [[= <-] Hr]; lia].
      * assert (Hz : MachineInt.wrapInt (- MachineInt.wrapInt un) = - un).
        { destruct (Z.eq_dec un 9223372036854775808) as [-> | Hne];
            [vm_compute; reflexivity|].
          rewrite (wrapInt_id un) by (apply in_int_bounds; lia).
          apply wrapInt_id, in_int_bounds. lia. }
        rewrite Hz. split; [intros [= <-]; split; [reflexivity | lia]
                           | intros [[= <-] _]; reflexivity].
    + destruct (Z.leb_spec 9223372036854775808 un) as [Hle | Hlt].
      * split; [discriminate | intros [[= <-] Hr]; lia].
      * rewrite (wrapInt_id un) by (apply in_int_bounds; lia).
        split; [intros [= <-]; split; [reflexivity | lia]
               | intros [[= <-] _]; reflexivity].
  - split; [discriminate|]. intros [Hx Hr].
    destruct (allDigits s1) eqn:Hd; [|discriminate].
    pose proof (decimalAcc_ge s1 0 Hd ltac:(lia)) as Hge.
    assert (Hok : Strconv.parseUintLoop s1 0 = Ok (decimalAcc s1 0)).
    { rewrite Hloop. apply Hspec. repeat split.
      injection Hx as <-. destruct neg; lia. }
    rewrite Hloop in Hok. discriminate.
  - split; [destruct neg; discriminate|]. intros [Hx Hr].
    destruct (allDigits s1) eqn:Hd; [|discriminate].
    pose proof (decimalAcc_ge s1 0 Hd ltac:(lia)) as Hge.
    assert (Hok : Strconv.parseUintLoop s1 0 = Ok (decimalAcc s1 0)).
    { rewrite Hloop. apply Hspec. repeat split.
      injection Hx as <-. destruct neg; lia. }
    rewrite Hloop in Hok. discriminate.
Qed.

(** X23. [strconv.Atoi], which reads UID and GID, succeeds exactly on
    the decimal numerals, with an optional sign, whose value is a
    machine integer, and returns that value: the fast path on short
    inputs and [ParseInt] on long ones agree, and nothing else is
    accepted (no blanks, no underscores, no other base). *)
Theorem Atoi_reads_numerals (s : string) (z : Z) :
  Strconv.Atoi s = Ok z <-> numeralValue s = Some z /\ MachineInt.in_int z.
Proof.
  unfold Strconv.Atoi.
  change (MachineInt.intSize =? 32) with false.
  change (MachineInt.intSize =? 64) with true. cbn [andb orb].
  destruct ((0 <? Z.of_nat (String.length s))
            && (Z.of_nat (String.length s) <? 19)) eqn:Hlen.
  - apply andb_prop in Hlen as [Hpos Hshort].
    apply Z.ltb_lt in Hpos, Hshort.
    destruct s as [|c0 rest]; [simpl in Hpos; lia|].
    unfold numeralValue. rewrite splitSign_cons.
    rewrite (orb_comm (Ascii.eqb c0 "+")).
    set (signed := Ascii.eqb c0 "-" || Ascii.eqb c0 "+").
    set (s1 := if signed then rest else String c0 rest).
    assert (Hs1 : (String.length s1 <= 18)%nat).
    { subst s1. simpl in Hshort. destruct signed; simpl; lia. }
    rewrite eqb_empty_length.
    assert (Hsg : signed && (String.length s1 <? 1)%nat
                  = (String.length s1 <? 1)%nat).
    { subst s1. destruct signed; reflexivity. }
    rewrite Hsg.
    destruct (String.length s1 <? 1)%nat; cbn [negb andb].
    { split; [discriminate | intros [Hx _]; discriminate]. }
    destruct (atoiLoop_spec s1 0 0 ltac:(simpl; lia) ltac:(simpl; lia))
      as [-> Hr].
    destruct (allDigits s1); [|split; [discriminate | intros [Hx _]; discriminate]].
    specialize (Hr eq_refl).
    assert (H18 : 10 ^ 18 = 1000000000000000000) by reflexivity.
    rewrite in_int_bounds.
    destruct (Ascii.eqb c0 "-").
    + rewrite wrapInt_id by (apply in_int_bounds; lia).
      split; [intros [= <-]; split; [reflexivity | lia]
             | intros [[= <-] _]; reflexivity].
    + split; [intros [= <-]; split; [reflexivity | lia]
             | intros [[= <-] _]; reflexivity].
  - destruct (Strconv.ParseInt s) as [i|e] eqn:Hp.
    + apply ParseInt_spec in Hp as [Hv Hr]. rewrite wrapInt_id by exact Hr.
      rewrite Hv. split; [intros [= <-]; split; [reflexivity | exact Hr]
                         | intros [[= <-] _]; reflexivity].
    + split; [discriminate|]. intros Hx. apply ParseInt_spec in Hx.
      rewrite Hp in Hx. discriminate.
Qed.

(** ** The time stamps of [/write-storage] *)

Lemma append_length (a b : string) :
  String.length (a +:+ b) = (String.length a + String.length b)%nat.
Proof. induction a as [|c a IH]; simpl; [reflexivity | now rewrite IH]. Qed.

Lemma appendInt2_length (x : Z) :
  0 <= x < 100 -> String.length (Time.appendInt x 2) = 2%nat.
Proof.
  intros Hx. unfold Time.appendInt.
  destruct (Z.ltb_spec x 0); [lia|]. rewrite Z.abs_eq by lia.
  destruct (Z.ltb_spec x 100); [reflexivity | lia].
Qed.

Lemma appendInt4_length (x : Z) :
  0 <= x < 10000 -> String.length (Time.appendInt x 4) = 4%nat.
Proof.
  intros Hx. unfold Time.appendInt.
  destruct (Z.ltb_spec x 0); [lia|]. rewrite Z.abs_eq by lia.
  destruct (Z.ltb_spec x 10000); [reflexivity | lia].
Qed.

(** X24. The stamp that [/write-storage] stores has 20 characters when
    the zone is UTC and 25 otherwise, and it tells instants apart: two
    instants with the same stamp agree in date, time of day and the
    zone offset in whole minutes. *)
Theorem stamps_tell_instants (t1 t2 : Time.Time) :
  Time.valid t1 -> Time.valid t2 ->
  String.length (Time.formatRFC3339 t1)
  = (if Time.offset t1 =? 0 then 20%nat else 25%nat)
  /\ (Time.formatRFC3339 t1 = Time.formatRFC3339 t2 ->
      Time.truncZone t1 = Time.truncZone t2).
Proof.
  intros Hv1 Hv2. split.
  - destruct Hv1 as (Hy & Hmo & Hd & Hh & Hmi & Hs & Hoff).
    unfold Time.formatRFC3339.
    rewrite !append_length.
    rewrite appendInt4_length by lia.
    rewrite !appendInt2_length by lia.
    destruct (Time.offset t1 =? 0); [reflexivity|].
    rewrite !append_length.
    cbv zeta.
    assert (Hq : 0 <= Z.quot (Z.abs (Z.quot (Time.offset t1) 60)) 60 < 100)
      by zeuclid.
    assert (Hr : 0 <= Z.rem (Z.abs (Z.quot (Time.offset t1) 60)) 60 < 100)
      by zeuclid.
    rewrite !appendInt2_length by assumption.
    destruct (_ <? 0); reflexivity.
  - intros Heq.
    pose proof (TimeFacts.parse_format t1 Hv1) as H1.
    pose proof (TimeFacts.parse_format t2 Hv2) as H2.
    rewrite Heq, H2 in H1. congruence.
Qed.

(** ** The properties at concrete inputs *)

Lemma accepted_config_witness :
  main_init (H := sampleLib) scenarioEnv = Ok scenarioCfg
  /\ prefixPort (listenPort scenarioCfg) = ":8080"
  /\ machineName scenarioCfg <> "".
Proof.
  assert (Hi : main_init (H := sampleLib) scenarioEnv = Ok scenarioCfg)
    by (vm_compute; reflexivity).
  destruct (accepted_config (H := sampleLib) scenarioEnv scenarioCfg Hi)
    as (_ & _ & _ & _ & _ & Hm & _ & _ & Hp & _).
  split; [exact Hi|]. split; [apply Hp; reflexivity | exact Hm].
Defined.

Lemma encode_failure_witness :
  let o := serve (H := failingLib) List scenarioCfg scenarioReq oneFileWorld in
  status o.1.2 = Some 200 /\ body o.1.2 = "" /\ length (logs o.2) = 1%nat.
Proof.
  intros o.
  pose (e := match Marshal (H := failingLib) o.1.1 with
             | Err e => e
             | Ok _ => ""
             end).
  assert (Hm : Marshal (H := failingLib) o.1.1 = Err e)
    by (vm_compute; reflexivity).
  destruct (encode_failure (H := failingLib) List scenarioCfg scenarioReq
              oneFileWorld _ _ _ e (triple_eta _) Hm)
    as (_ & _ & _ & Hs & _ & Hb & Hl).
  split; [exact Hs|]. split; [exact Hb|].
  subst o. rewrite Hl. reflexivity.
Defined.

Lemma read_is_stable_witness :
  let W := (serve (H := sampleLib) WriteStorage storageCfg scenarioReq
              emptyDirWorld).2 in
  let rs := [(List, scenarioReq, sampleTime);
             (ReadStorage, mkRequest [], sampleTime)] in
  (serve (H := sampleLib) ReadStorage storageCfg scenarioReq
     (serveAll (H := sampleLib) storageCfg rs W)).1
  = (serve (H := sampleLib) ReadStorage storageCfg (mkRequest []) W).1.
Proof.
  intros W rs.
  apply (read_is_stable (H := sampleLib) storageCfg rs (mkRequest []) scenarioReq W).
  subst rs. repeat constructor; discriminate.
Defined.

Lemma probe_log_accounting_witness :
  exists s' new,
    Probe.run (H := sampleLib) "pod-a" sampleLogger (Probe.started fullTable)
      sampleSchedule = Some s'
    /\ Probe.sink s' = new
    /\ (length new + length (Probe.written s') = 2)%nat.
Proof.
  pose (o := Probe.run (H := sampleLib) "pod-a" sampleLogger
               (Probe.started fullTable) sampleSchedule).
  assert (Hrun : o = Some (default (Probe.started fullTable) o))
    by (apply some_default; vm_compute; eauto).
  set (s' := default (Probe.started fullTable) o) in Hrun.
  destruct (probe_log_accounting (H := sampleLib) "pod-a" sampleLogger
              sampleSchedule _ s' Hrun) as (new & Hs & _ & Hn).
  exists s', new. split; [exact Hrun|]. split; [exact Hs | exact Hn].
Defined.

Lemma reads_follow_ticks_witness :
  exists s,
    Probe.run (H := sampleLib) "pod-a" sampleLogger (Probe.started Store.emptyTable)
      lateSchedule = Some s
    /\ (countIf isQuery lateSchedule + inQuery s = 3)%nat
    /\ (3 + pendingTick s <= 3)%nat.
Proof.
  pose (o := Probe.run (H := sampleLib) "pod-a" sampleLogger
               (Probe.started Store.emptyTable) lateSchedule).
  assert (Hrun : o = Some (default (Probe.started Store.emptyTable) o))
    by (apply some_default; vm_compute; eauto).
  set (s := default (Probe.started Store.emptyTable) o) in Hrun.
  exists s. split; [exact Hrun|].
  exact (reads_follow_ticks (H := sampleLib) "pod-a" sampleLogger
           Store.emptyTable lateSchedule s Hrun).
Defined.

Lemma inserts_follow_sleeps_witness :
  exists s,
    Probe.run (H := sampleLib) "pod-a" sampleLogger (Probe.started Store.emptyTable)
      sampleSchedule = Some s
    /\ (2 + armed s <= 1 + 1)%nat.
Proof.
  pose (o := Probe.run (H := sampleLib) "pod-a" sampleLogger
               (Probe.started Store.emptyTable) sampleSchedule).
  assert (Hrun : o = Some (default (Probe.started Store.emptyTable) o))
    by (apply some_default; vm_compute; eauto).
  set (s := default (Probe.started Store.emptyTable) o) in Hrun.
  exists s. split; [exact Hrun|].
  exact (inserts_follow_sleeps (H := sampleLib) "pod-a" sampleLogger
           Store.emptyTable sampleSchedule s Hrun).
Defined.

Lemma ids_unique_in_range_witness :
  exists s,
    Probe.run (H := sampleLib) "pod-a" sampleLogger (Probe.started oldTable)
      sampleSchedule = Some s
    /\ List.NoDup (map Store.id (Store.entries (Probe.db s)))
    /\ forall e, In e (Probe.written s) -> 1 <= Store.id e <= Store.maxRowid.
Proof.
  pose (o := Probe.run (H := sampleLib) "pod-a" sampleLogger
               (Probe.started oldTable) sampleSchedule).
  assert (Hrun : o = Some (default (Probe.started oldTable) o))
    by (apply some_default; vm_compute; eauto).
  set (s := default (Probe.started oldTable) o) in Hrun.
  exists s. split; [exact Hrun|].
  destruct (ids_unique_in_range (H := sampleLib) "pod-a" sampleLogger
              oldTable sampleSchedule s Hrun) as (Hn & Hr & _).
  - simpl. repeat constructor; simpl; intuition discriminate.
  - split; assumption.
Defined.


Lemma full_table_takes_no_rows_witness :
  exists s,
    Probe.run (H := sampleLib) "pod-a" sampleLogger (Probe.started fullTable)
      sampleSchedule = Some s
    /\ Probe.db s = fullTable /\ Probe.written s = []
    /\ length (Probe.sink s) = 2%nat.
Proof.
  pose (o := Probe.run (H := sampleLib) "pod-a" sampleLogger
               (Probe.started fullTable) sampleSchedule).
  assert (Hrun : o = Some (default (Probe.started fullTable) o))
    by (apply some_default; vm_compute; eauto).
  set (s := default (Probe.started fullTable) o) in Hrun.
  exists s. split; [exact Hrun|].
  apply (full_table_takes_no_rows (H := sampleLib) "pod-a" sampleLogger
           fullTable sampleSchedule s); [vm_compute; discriminate | exact Hrun].
Defined.

Lemma rows_survive_restart_witness :
  exists st1 s1 st2 s2,
    Probe.setupSqlite (H := sampleLib) None None None "10s" "1s" = Ok st1
    /\ Probe.run (H := sampleLib) "pod-a" sampleLogger st1 sampleSchedule = Some s1
    /\ Probe.setupSqlite (H := sampleLib) (Some (Probe.db s1)) None None "10s" "1s"
       = Ok st2
    /\ Probe.run (H := sampleLib) "pod-a" sampleLogger st2 (take 2 sampleSchedule)
       = Some s2
    /\ Store.entries (Probe.db s2) = Store.entries (Probe.db s1) ++ Probe.written s2
    /\ map Store.id (Probe.written s1 ++ Probe.written s2) = [1; 2; 3].
Proof.
  pose (st1 := Probe.started Store.emptyTable).
  assert (H1 : Probe.setupSqlite (H := sampleLib) None None None "10s" "1s" = Ok st1)
    by reflexivity.
  pose (o1 := Probe.run (H := sampleLib) "pod-a" sampleLogger st1 sampleSchedule).
  assert (Hrun1 : o1 = Some (default st1 o1))
    by (apply some_default; vm_compute; eauto).
  set (s1 := default st1 o1) in Hrun1.
  pose (st2 := Probe.started (Probe.db s1)).
  assert (H2 : Probe.setupSqlite (H := sampleLib) (Some (Probe.db s1)) None None
                 "10s" "1s" = Ok st2) by reflexivity.
  pose (o2 := Probe.run (H := sampleLib) "pod-a" sampleLogger st2
                (take 2 sampleSchedule)).
  assert (Hrun2 : o2 = Some (default st2 o2))
    by (apply some_default; vm_compute; eauto).
  set (s2 := default st2 o2) in Hrun2.
  exists st1, s1, st2, s2.
  destruct (rows_survive_restart (H := sampleLib) "pod-a" sampleLogger None
              "10s" "1s" "10s" "1s" st1 s1 st2 s2 sampleSchedule
              (take 2 sampleSchedule) H1 Hrun1 H2 Hrun2) as (_ & He & _).
  repeat (split; [assumption|]). vm_compute. reflexivity.
Defined.

Lemma shutdown_needs_trigger_witness :
  exists s,
    Lifecycle.run storageCfg true Lifecycle.running (take 4 failureSchedule) = Some s
    /\ Lifecycle.cancelled s = true
    /\ before isTrigger (fun r => msg r = "shutting down HTTP server")
         (Lifecycle.sink s).
Proof.
  pose (o := Lifecycle.run storageCfg true Lifecycle.running (take 4 failureSchedule)).
  assert (Hrun : o = Some (default Lifecycle.running o))
    by (apply some_default; vm_compute; eauto).
  set (s := default Lifecycle.running o) in Hrun.
  destruct (shutdown_needs_trigger storageCfg true (take 4 failureSchedule) s Hrun)
    as (Hc & _ & Hb).
  exists s. split; [exact Hrun|]. split; [|exact Hb].
  apply Hc. vm_compute. discriminate.
Defined.


Lemma shutdown_completes_witness :
  exists s s',
    Lifecycle.run storageCfg true Lifecycle.running (take 3 failureSchedule) = Some s
    /\ Lifecycle.run storageCfg true s (Lifecycle.finish s) = Some s'
    /\ Lifecycle.exit s' = Some 0.
Proof.
  pose (o := Lifecycle.run storageCfg true Lifecycle.running (take 3 failureSchedule)).
  assert (Hrun : o = Some (default Lifecycle.running o))
    by (apply some_default; vm_compute; eauto).
  set (s := default Lifecycle.running o) in Hrun.
  destruct (shutdown_completes storageCfg true (take 3 failureSchedule) s Hrun)
    as (s' & Hf & He & _); [vm_compute; reflexivity|].
  exists s, s'. split; [exact Hrun|]. split; assumption.
Defined.

Lemma stamps_tell_instants_witness :
  String.length (Time.formatRFC3339 sampleTime) = 25%nat
  /\ (Time.formatRFC3339 sampleTime
      = Time.formatRFC3339 (Time.mkTime 2025 3 9 14 5 59 3630) ->
      Time.truncZone sampleTime
      = Time.truncZone (Time.mkTime 2025 3 9 14 5 59 3630)).
Proof.
  apply (stamps_tell_instants sampleTime (Time.mkTime 2025 3 9 14 5 59 3630));
    vm_compute; repeat split; discriminate.
Defined.
